(** * bcrypto native bindings (bcrypto.cc): a shallow embedding

    The binding layer of [src/node_modules/bcrypto/src/bcrypto.cc] is
    embedded as functions in a small state-and-exception monad over a
    model of the host runtime (argument values, Buffers on a heap,
    thrown errors) and of the C runtime (malloc and free, recorded in a
    trace of events).

    The primitives the bindings call live in companion files that are
    not part of the sources ([scrypt/scrypt.h], [pbkdf2/pbkdf2.h],
    [random/random.h], [cipher/cipher.h]).  scrypt, PBKDF2 and the
    random source are modelled from the specification; the cipher, its
    size macros, the digest registry and the allocator are taken from
    the environment of a call.

    Contents: 32-bit words; SHA-256, HMAC, PBKDF2; the scrypt engine;
    the host runtime; state, environment and monad; the native methods;
    the vocabulary of the properties; the properties. *)

From Stdlib Require Import ZArith List Lia Uint63 Strings.Byte String Bool.
Import ListNotations.

(** ** 32-bit words

    The engine works on 32-bit words.  They are carried in primitive
    63-bit integers, every result masked back to 32 bits, so that the
    published test vectors can be evaluated. *)
Module Word32.
Local Open Scope uint63_scope.

Definition mask32 : int := 0xFFFFFFFF.
Definition u32 (x : int) : int := x land mask32.
Definition add32 (a b : int) : int := u32 (a + b).
Definition rotr32 (a b : int) : int := u32 ((a >> b) lor (a << (32 - b))).
Definition not32 (a : int) : int := a lxor mask32.

Definition int_of_byte (b : byte) : int := Uint63.of_Z (Z.of_N (Byte.to_N b)).
Definition byte_of_int (x : int) : byte :=
  match Byte.of_N (Z.to_N (Uint63.to_Z (x land 0xFF))) with
  | Some b => b
  | None => x00
  end.

(** big-endian and little-endian encodings of a word, and decodings of
    a byte string into words *)
Definition be32_bytes (w : int) : list int :=
  [(w >> 24) land 0xFF; (w >> 16) land 0xFF; (w >> 8) land 0xFF; w land 0xFF].
Definition le32_bytes (w : int) : list int :=
  [w land 0xFF; (w >> 8) land 0xFF; (w >> 16) land 0xFF; (w >> 24) land 0xFF].

Fixpoint be32_words (l : list int) : list int :=
  match l with
  | a :: b :: c :: d :: l' =>
      ((a << 24) lor (b << 16) lor (c << 8) lor d) :: be32_words l'
  | _ => []
  end.

Fixpoint le32_words (l : list int) : list int :=
  match l with
  | a :: b :: c :: d :: l' =>
      (a lor (b << 8) lor (c << 16) lor (d << 24)) :: le32_words l'
  | _ => []
  end.

Fixpoint xor_words (a b : list int) : list int :=
  match a, b with
  | x :: a', y :: b' => (x lxor y) :: xor_words a' b'
  | _, _ => []
  end.

End Word32.

(** ** SHA-256

    The hash under the PRF dependency.  The specification names the PRF
    (PBKDF2-HMAC-SHA256) and leaves the hash to its standard, FIPS
    180-4; its C implementation is not part of the binding file. *)
Module SHA256.
Import Word32.
Local Open Scope uint63_scope.

Definition Ch (x y z : int) : int := (x land y) lxor (not32 x land z).
Definition Maj (x y z : int) : int := (x land y) lxor (x land z) lxor (y land z).
Definition Sigma0 (x : int) : int := rotr32 x 2 lxor rotr32 x 13 lxor rotr32 x 22.
Definition Sigma1 (x : int) : int := rotr32 x 6 lxor rotr32 x 11 lxor rotr32 x 25.
Definition sigma0 (x : int) : int := rotr32 x 7 lxor rotr32 x 18 lxor (x >> 3).
Definition sigma1 (x : int) : int := rotr32 x 17 lxor rotr32 x 19 lxor (x >> 10).

Definition K : list int :=
  [ 0x428A2F98; 0x71374491; 0xB5C0FBCF; 0xE9B5DBA5;
    0x3956C25B; 0x59F111F1; 0x923F82A4; 0xAB1C5ED5;
    0xD807AA98; 0x12835B01; 0x243185BE; 0x550C7DC3;
    0x72BE5D74; 0x80DEB1FE; 0x9BDC06A7; 0xC19BF174;
    0xE49B69C1; 0xEFBE4786; 0x0FC19DC6; 0x240CA1CC;
    0x2DE92C6F; 0x4A7484AA; 0x5CB0A9DC; 0x76F988DA;
    0x983E5152; 0xA831C66D; 0xB00327C8; 0xBF597FC7;
    0xC6E00BF3; 0xD5A79147; 0x06CA6351; 0x14292967;
    0x27B70A85; 0x2E1B2138; 0x4D2C6DFC; 0x53380D13;
    0x650A7354; 0x766A0ABB; 0x81C2C92E; 0x92722C85;
    0xA2BFE8A1; 0xA81A664B; 0xC24B8B70; 0xC76C51A3;
    0xD192E819; 0xD6990624; 0xF40E3585; 0x106AA070;
    0x19A4C116; 0x1E376C08; 0x2748774C; 0x34B0BCB5;
    0x391C0CB3; 0x4ED8AA4A; 0x5B9CCA4F; 0x682E6FF3;
    0x748F82EE; 0x78A5636F; 0x84C87814; 0x8CC70208;
    0x90BEFFFA; 0xA4506CEB; 0xBEF9A3F7; 0xC67178F2 ].

Inductive hstate : Type :=
  HState (a b c d e f g h : int).

Definition H0 : hstate :=
  HState 0x6A09E667 0xBB67AE85 0x3C6EF372 0xA54FF53A
         0x510E527F 0x9B05688C 0x1F83D9AB 0x5BE0CD19.

(** The message schedule.  [w] holds the words computed so far, the
    most recent first; each step adds W_t from W_{t-2}, W_{t-7},
    W_{t-15} and W_{t-16}. *)
Fixpoint schedule (n : nat) (w : list int) : list int :=
  match n with
  | O => w
  | S n' =>
      match w with
      | _ :: w2 :: _ :: _ :: _ :: _ :: w7 :: _ :: _ :: _ :: _ :: _
          :: _ :: _ :: w15 :: w16 :: _ =>
          schedule n' (add32 (add32 (sigma1 w2) w7) (add32 (sigma0 w15) w16) :: w)
      | _ => w
      end
  end.

Definition round (s : hstate) (kw : int * int) : hstate :=
  let '(HState a b c d e f g h) := s in
  let t1 := add32 (add32 (add32 h (Sigma1 e)) (add32 (Ch e f g) (fst kw))) (snd kw) in
  let t2 := add32 (Sigma0 a) (Maj a b c) in
  HState (add32 t1 t2) a b c (add32 d t1) e f g.

Definition compress (s : hstate) (block : list int) : hstate :=
  let w := rev (schedule 48 (rev block)) in
  let '(HState a b c d e f g h) := fold_left round (combine K w) s in
  let '(HState a0 b0 c0 d0 e0 f0 g0 h0) := s in
  HState (add32 a0 a) (add32 b0 b) (add32 c0 c) (add32 d0 d)
         (add32 e0 e) (add32 f0 f) (add32 g0 g) (add32 h0 h).

(** Padding: a 1 bit, zeros up to 56 mod 64 bytes, the bit length on
    64 bits. *)
Definition pad (m : list int) : list int :=
  let n := List.length m in
  let k := ((64 - ((n + 9) mod 64)) mod 64)%nat in
  let bits := Uint63.of_Z (8 * Z.of_nat n) in
  m ++ 0x80 :: repeat 0 k ++ be32_bytes (bits >> 32) ++ be32_bytes (u32 bits).

Fixpoint blocks (n : nat) (w : list int) : list (list int) :=
  match n with
  | O => []
  | S n' => firstn 16 w :: blocks n' (skipn 16 w)
  end.

Definition digest_bytes (s : hstate) : list int :=
  let '(HState a b c d e f g h) := s in
  be32_bytes a ++ be32_bytes b ++ be32_bytes c ++ be32_bytes d ++
  be32_bytes e ++ be32_bytes f ++ be32_bytes g ++ be32_bytes h.

(** Modelled from the spec: SHA-256, the hash of the PRF dependency
    (section 1, "PBKDF2-HMAC-SHA256"); missing from the sources, written after
    FIPS 180-4. *)
Definition sha256 (m : list int) : list int :=
  let p := pad m in
  digest_bytes (fold_left compress (blocks (List.length p / 64) (be32_words p)) H0).

End SHA256.

(** ** HMAC and PBKDF2

    The PRF dependency of the specification, "a pseudorandom function
    keyed by a password+salt producing an arbitrary-length byte
    stream".  A digest is a hash of bytes with its input block size and
    output size. *)
Module PRF.
Import Word32.
Local Open Scope uint63_scope.

Record EVP_MD : Type := mkMD {
  md_block_size : nat;
  md_size : nat;
  md_hash : list int -> list int
}.

Definition EVP_sha256 : EVP_MD :=
  {| md_block_size := 64; md_size := 32; md_hash := SHA256.sha256 |}.

(** Modelled from the spec: HMAC over a digest (RFC 2104), the keyed
    hash inside PBKDF2-HMAC-SHA256; missing from the sources. *)
Definition hmac (md : EVP_MD) (key msg : list int) : list int :=
  let k0 := if (md_block_size md <? List.length key)%nat then md_hash md key else key in
  let k := k0 ++ repeat 0 (md_block_size md - List.length k0) in
  md_hash md (map (fun x => x lxor 0x5c) k ++
              md_hash md (map (fun x => x lxor 0x36) k ++ msg)).

(** U_2 .. U_c folded into the running xor *)
Fixpoint iterate (prf : list int -> list int) (c : nat) (u acc : list int) : list int :=
  match c with
  | O => acc
  | S c' => let u' := prf u in iterate prf c' u' (xor_words acc u')
  end.

(** block T_i = U_1 xor ... xor U_c, with U_1 = PRF (salt || INT_32_BE i) *)
Definition F (prf : list int -> list int) (salt : list int) (c : nat) (i : int) : list int :=
  let u1 := prf (salt ++ be32_bytes i) in
  iterate prf (c - 1) u1 u1.

Fixpoint T (prf : list int -> list int) (salt : list int) (c : nat) (l : nat) (i : int)
  : list int :=
  match l with
  | O => []
  | S l' => F prf salt c i ++ T prf salt c l' (i + 1)
  end.

(** Modelled from the spec: the PRF contract
    [prf(password, salt, iterations, outlen) -> bytes(len=outlen)] of section 6,
    as PBKDF2 (RFC 8018) over HMAC; missing from the sources. *)
Definition pbkdf2_hmac (md : EVP_MD) (pass salt : list int) (c : nat) (dkLen : nat)
  : list int :=
  firstn dkLen (T (hmac md pass) salt c ((dkLen + md_size md - 1) / md_size md) 1).

End PRF.

(** ** The scrypt engine

    The scrypt implementation behind [bcrypto_scrypt] (core mixer,
    BlockMix, SMix and driver) is in a companion file that is not part
    of the sources.  The specification (section 4, section 9) reconstructs "the
    standard scrypt algorithm (RFC 7914) as the intended behavior";
    the engine is written after section 4 and, where section 4 is loose (the order of
    the BlockMix output, Integerify), after RFC 7914. *)
Module Scrypt.
Import Word32.
Local Open Scope uint63_scope.

(** one step [t ^= R(a+b, s)] of the Salsa20 round; [s'] is [32 - s] *)
Definition qr (t a b s s' : int) : int :=
  let u := (a + b) land mask32 in
  t lxor (((u << s) lor (u >> s')) land mask32).

Inductive block16 : Type :=
  B16 (y0 y1 y2 y3 y4 y5 y6 y7 y8 y9 y10 y11 y12 y13 y14 y15 : int).

(** a column round followed by a row round *)
Definition doubleround (x : block16) : block16 :=
  let '(B16 y0 y1 y2 y3 y4 y5 y6 y7 y8 y9 y10 y11 y12 y13 y14 y15) := x in
  let y4 := qr y4 y0 y12 7 25 in let y8 := qr y8 y4 y0 9 23 in
  let y12 := qr y12 y8 y4 13 19 in let y0 := qr y0 y12 y8 18 14 in
  let y9 := qr y9 y5 y1 7 25 in let y13 := qr y13 y9 y5 9 23 in
  let y1 := qr y1 y13 y9 13 19 in let y5 := qr y5 y1 y13 18 14 in
  let y14 := qr y14 y10 y6 7 25 in let y2 := qr y2 y14 y10 9 23 in
  let y6 := qr y6 y2 y14 13 19 in let y10 := qr y10 y6 y2 18 14 in
  let y3 := qr y3 y15 y11 7 25 in let y7 := qr y7 y3 y15 9 23 in
  let y11 := qr y11 y7 y3 13 19 in let y15 := qr y15 y11 y7 18 14 in
  let y1 := qr y1 y0 y3 7 25 in let y2 := qr y2 y1 y0 9 23 in
  let y3 := qr y3 y2 y1 13 19 in let y0 := qr y0 y3 y2 18 14 in
  let y6 := qr y6 y5 y4 7 25 in let y7 := qr y7 y6 y5 9 23 in
  let y4 := qr y4 y7 y6 13 19 in let y5 := qr y5 y4 y7 18 14 in
  let y11 := qr y11 y10 y9 7 25 in let y8 := qr y8 y11 y10 9 23 in
  let y9 := qr y9 y8 y11 13 19 in let y10 := qr y10 y9 y8 18 14 in
  let y12 := qr y12 y15 y14 7 25 in let y13 := qr y13 y12 y15 9 23 in
  let y14 := qr y14 y13 y12 13 19 in let y15 := qr y15 y14 y13 18 14 in
  B16 y0 y1 y2 y3 y4 y5 y6 y7 y8 y9 y10 y11 y12 y13 y14 y15.

(** Modelled from the spec: the core mixer of section 4.1, missing from the
    sources: Salsa20/8 on a 64-byte block (16 little-endian words),
    four iterations of the column and row rounds, then the feed-forward
    addition of the input. *)
Definition salsa20_8 (b : list int) : list int :=
  match b with
  | [i0; i1; i2; i3; i4; i5; i6; i7; i8; i9; i10; i11; i12; i13; i14; i15] =>
      let '(B16 y0 y1 y2 y3 y4 y5 y6 y7 y8 y9 y10 y11 y12 y13 y14 y15) :=
        doubleround (doubleround (doubleround (doubleround
          (B16 i0 i1 i2 i3 i4 i5 i6 i7 i8 i9 i10 i11 i12 i13 i14 i15)))) in
      [add32 y0 i0; add32 y1 i1; add32 y2 i2; add32 y3 i3;
       add32 y4 i4; add32 y5 i5; add32 y6 i6; add32 y7 i7;
       add32 y8 i8; add32 y9 i9; add32 y10 i10; add32 y11 i11;
       add32 y12 i12; add32 y13 i13; add32 y14 i14; add32 y15 i15]
  | _ => b
  end.

(** the loop of BlockMix: each input block is xored into X and mixed;
    the results Y_0, Y_1, ... are collected as (Y_0, Y_2, ...) and
    (Y_1, Y_3, ...), most recent first *)
Fixpoint blockmix_loop (n : nat) (x b : list int) (even : bool)
  (ev od : list (list int)) : list (list int) * list (list int) :=
  match n with
  | O => (ev, od)
  | S n' =>
      let x' := salsa20_8 (xor_words x (firstn 16 b)) in
      if even then blockmix_loop n' x' (skipn 16 b) false (x' :: ev) od
      else blockmix_loop n' x' (skipn 16 b) true ev (x' :: od)
  end.

(** Modelled from the spec: BlockMix of section 4.2, missing from the sources,
    over [2r] blocks of 16 words.  X starts as the last block; the output
    is Y_0, Y_2, ..., Y_{2r-2}, Y_1, Y_3, ..., Y_{2r-1}. *)
Definition blockmix (r : nat) (b : list int) : list int :=
  let x := skipn (16 * (2 * r - 1)) b in
  let '(ev, od) := blockmix_loop (2 * r) x b true [] [] in
  List.concat (rev ev) ++ List.concat (rev od).

(** Integerify, as RFC 7914 defines it: the last 64-byte block of the
    lane state read as a little-endian integer, of which the low 64 bits
    are kept. *)
Definition integerify (r : nat) (x : list int) : Z :=
  let l := skipn (16 * (2 * r - 1)) x in
  let lo := Uint63.to_Z (nth 0 l 0) in
  let hi := Uint63.to_Z (nth 1 l 0) in
  (lo + 2 ^ 32 * hi)%Z.

(** SMix, fill phase: V_i = X; X = BlockMix X. *)
Fixpoint fill (r : nat) (n : nat) (x : list int) (v : list (list int))
  : list int * list (list int) :=
  match n with
  | O => (x, rev v)
  | S n' => fill r n' (blockmix r x) (x :: v)
  end.

(** SMix, mix phase: j = Integerify X mod N; X = BlockMix (X xor V_j). *)
Fixpoint mix (r : nat) (N : Z) (n : nat) (x : list int) (v : list (list int))
  : list int :=
  match n with
  | O => x
  | S n' =>
      let j := Z.to_nat (integerify r x mod N) in
      mix r N n' (blockmix r (xor_words x (nth j v []))) v
  end.

(** Modelled from the spec: SMix of section 4.3, missing from the sources, on
    one lane of [128*r] bytes: the fill phase, then the mix phase. *)
Definition smix (r : nat) (N : Z) (b : list int) : list int :=
  let '(x, v) := fill r (Z.to_nat N) (le32_words b) [] in
  flat_map le32_bytes (mix r N (Z.to_nat N) x v).

(** the [p] lanes of the expanded buffer, each mixed on its own *)
Fixpoint lanes (r : nat) (N : Z) (p : nat) (b : list int) : list int :=
  match p with
  | O => []
  | S p' => smix r N (firstn (128 * r) b) ++ lanes r N p' (skipn (128 * r) b)
  end.

(** Modelled from the spec: the driver of section 4.4 once the parameters are
    validated, missing from the sources:
    B = PRF(password, salt, 1, 128*r*p); every lane through SMix;
    key = PRF(password, B, 1, keylen). *)
Definition scrypt_kdf (pass salt : list byte) (N r p keylen : Z) : list byte :=
  let pw := map int_of_byte pass in
  let b := PRF.pbkdf2_hmac PRF.EVP_sha256 pw (map int_of_byte salt) 1
             (Z.to_nat (128 * r * p)) in
  let b' := lanes (Z.to_nat r) N (Z.to_nat p) b in
  map byte_of_int (PRF.pbkdf2_hmac PRF.EVP_sha256 pw b' 1 (Z.to_nat keylen)).

Definition SIZE_MAX : Z := 2 ^ 64 - 1.

(** Modelled from the spec: the parameter validation of the driver,
    missing from the sources; the invariants of section 3: [N & (N-1) == 0] and
    [N > 1], [r] and [p] positive, [r*p < 2^30], and [128*r*N] and
    [128*r*p] within the (64-bit) size representation. *)
Definition valid_params (N r p : Z) : bool :=
  (Z.land N (N - 1) =? 0)%Z && (1 <? N)%Z &&
  (0 <? r)%Z && (0 <? p)%Z && (r * p <? 2 ^ 30)%Z &&
  (128 * r * N <=? SIZE_MAX)%Z && (128 * r * p <=? SIZE_MAX)%Z.

End Scrypt.

(** ** The host runtime

    Values handed to a native method, the errors it throws, and the
    numeric conversions the bindings apply to their arguments. *)
Module Host.
Local Open Scope Z_scope.

(** A number is modelled when it is integer-valued (fractions, NaN
    and the infinities are left out); a Buffer and a function are
    references. *)
Inductive value : Type :=
| VUndefined
| VString (s : string)
| VNumber (n : Z)
| VBuffer (b : nat)
| VFunction (f : nat).

Definition IsString (v : value) : bool :=
  match v with VString _ => true | _ => false end.
Definition IsNumber (v : value) : bool :=
  match v with VNumber _ => true | _ => false end.
Definition IsFunction (v : value) : bool :=
  match v with VFunction _ => true | _ => false end.
(** [node::Buffer::HasInstance] *)
Definition HasInstance (v : value) : bool :=
  match v with VBuffer _ => true | _ => false end.
(** the Buffer a value refers to *)
Definition ref (v : value) : nat :=
  match v with VBuffer b => b | _ => O end.

Inductive error_kind : Type := Error | TypeError.

Record exception : Type := mkExn {
  exn_kind : error_kind;
  exn_message : string
}.

(** [info[i]]: reading past the arguments gives undefined *)
Definition arg (info : list value) (i : nat) : value := nth i info VUndefined.

(** [v->IntegerValue()]: the number as a signed 64-bit integer,
    saturating at the ends of the range *)
Definition IntegerValue (v : value) : Z :=
  match v with
  | VNumber n => Z.max (- 2 ^ 63) (Z.min n (2 ^ 63 - 1))
  | _ => 0
  end.

(** [v->Uint32Value()]: the number modulo 2^32 *)
Definition Uint32Value (v : value) : Z :=
  match v with
  | VNumber n => n mod 2 ^ 32
  | _ => 0
  end.

(** the C conversions to [uint32_t], [uint64_t] and (64-bit) [size_t] *)
Definition to_uint32 (z : Z) : Z := z mod 2 ^ 32.
Definition to_uint64 (z : Z) : Z := z mod 2 ^ 64.
Definition to_size_t (z : Z) : Z := z mod 2 ^ 64.

Definition Utf8String (v : value) : string :=
  match v with VString s => s | _ => EmptyString end.

End Host.

(** ** State, environment and the monad of native methods *)
Module Native.
Import Host.
Local Open Scope Z_scope.

(** work handed to a background worker *)
Inductive work : Type :=
| PBKDF2Work (md : PRF.EVP_MD) (dbuf sbuf : value) (datalen saltlen iter keylen : Z)
             (callback : value)
| ScryptWork (pbuf sbuf : value) (passlen saltlen N r p keylen : Z) (callback : value).

(** what a call does besides returning: allocations and releases of C
    memory, runs of the PRF, of an SMix lane and of the cipher, calls of
    the random source on a range of a Buffer, cleansing, queued work *)
Inductive event : Type :=
| Malloc (block : nat) (size : Z) (granted : bool)
| Free (block : nat)
| Prf (outlen : Z)
| Smix (lane : nat)
| Cipher (decrypt : bool)
| Random (b : nat) (off size : Z)
| Cleanse (b : nat)
| Queue (w : work).

(** a block of C memory returned by malloc *)
Record block : Type := mkBlock {
  blk_id : nat;
  blk_bytes : list byte
}.

(** A Buffer of the host is a view of memory, and two Buffers may view
    the same memory.  [Own bytes] is a Buffer over the whole of a memory
    of its own; [Slice parent off len] is a Buffer over [len] bytes at
    offset [off] of the memory of the Buffer [parent] (a slice or
    subarray of it, or a second view of its ArrayBuffer), which is an
    older Buffer. *)
Inductive cell : Type :=
| Own (bytes : list byte)
| Slice (parent off len : nat).

Record state : Type := mkState {
  heap : list cell;          (* the Buffers of the host, by reference *)
  allocs : nat;              (* number of malloc calls so far *)
  drawn : nat;               (* bytes drawn from the random source so far *)
  trace : list event         (* oldest first *)
}.

(** The surroundings of a call.  [malloc_ok k n] tells whether the
    [k]-th malloc, for [n] bytes, is granted; [garbage] is the content of
    fresh memory; [entropy] is the random source, [None] when it is
    unavailable; [EVP_get_digestbyname] is the digest registry.  The
    cipher of [cipher/cipher.h] and its two size macros are not part of
    the binding file and are taken from the environment. *)
Record env : Type := mkEnv {
  malloc_ok : nat -> Z -> bool;
  garbage : nat -> byte;
  entropy : option (nat -> byte);
  EVP_get_digestbyname : string -> option PRF.EVP_MD;
  BCRYPTO_ENCIPHER_SIZE : Z -> Z;
  BCRYPTO_DECIPHER_SIZE : Z -> Z;
  bcrypto_encipher : list byte -> list byte -> list byte -> option (list byte);
  bcrypto_decipher : list byte -> list byte -> list byte -> option (list byte)
}.

Inductive result (A : Type) : Type :=
| Ok (a : A)
| Throw (e : exception).
Arguments Ok {A} a.
Arguments Throw {A} e.

Definition M (A : Type) : Type := state -> result A * state.

Definition ret {A : Type} (a : A) : M A := fun st => (Ok a, st).

Definition bind {A B : Type} (c : M A) (k : A -> M B) : M B :=
  fun st =>
    match c st with
    | (Ok a, st') => k a st'
    | (Throw e, st') => (Throw e, st')
    end.

Definition throw {A : Type} (e : exception) : M A := fun st => (Throw e, st).

Definition log (e : event) : M unit :=
  fun st => (Ok tt, mkState (heap st) (allocs st) (drawn st) (trace st ++ [e])).

Definition log_all (l : list event) : M unit :=
  fun st => (Ok tt, mkState (heap st) (allocs st) (drawn st) (trace st ++ l)).

Declare Scope native_scope.
Delimit Scope native_scope with native.
Notation "x <- c ;; k" := (bind c (fun x => k))
  (at level 61, c at next level, right associativity) : native_scope.
Notation "c ;; k" := (bind c (fun _ => k))
  (at level 61, right associativity) : native_scope.
Local Open Scope native_scope.

(** [Nan::ThrowError] and [Nan::ThrowTypeError], followed by return *)
Definition ThrowError {A : Type} (msg : string) : M A := throw (mkExn Error msg).
Definition ThrowTypeError {A : Type} (msg : string) : M A := throw (mkExn TypeError msg).

(** [node::Buffer::Data] and [node::Buffer::Length] *)
Definition memory (h : list cell) (p : nat) : list byte :=
  match nth p h (Own []) with
  | Own l => l
  | Slice _ _ _ => []
  end.

Definition view (h : list cell) (b : nat) : list byte :=
  match nth b h (Own []) with
  | Own l => l
  | Slice p off len =>
      if (p <? b)%nat then firstn len (skipn off (memory h p)) else []
  end.

Definition buffer (st : state) (b : nat) : list byte := view (heap st) b.

Definition Data (v : value) : M (list byte) :=
  fun st => (Ok (buffer st (ref v)), st).

Definition Length (v : value) : M Z :=
  fun st => (Ok (Z.of_nat (List.length (buffer st (ref v)))), st).

Fixpoint replace_nth {A : Type} (n : nat) (l : list A) (x : A) : list A :=
  match l, n with
  | [], _ => []
  | _ :: l', O => x :: l'
  | y :: l', S n' => y :: replace_nth n' l' x
  end.

(** [d] written at offset [off] of the memory [l] *)
Definition splice (l : list byte) (off : nat) (d : list byte) : list byte :=
  firstn off l ++ d ++ skipn (off + List.length d) l.

(** the heap after the bytes that Buffer [b] views were overwritten
    with [d]: the write lands in the memory the Buffer views, so every
    Buffer over that memory sees it *)
Definition poke (h : list cell) (b : nat) (d : list byte) : list cell :=
  match nth b h (Own []) with
  | Own _ => replace_nth b h (Own d)
  | Slice p off len =>
      if (p <? b)%nat then
        match nth p h (Own []) with
        | Own l => replace_nth p h (Own (splice l off d))
        | Slice _ _ _ => h
        end
      else h
  end.

(** writing through the data pointer of Buffer [b] *)
Definition store (b : nat) (d : list byte) : M unit :=
  fun st => (Ok tt, mkState (poke (heap st) b d) (allocs st) (drawn st) (trace st)).

(** [Nan::NewBuffer(char *data, uint32_t size)]: the size is narrowed
    to 32 bits, and the new Buffer is over the first [size] bytes of
    the block, which no other Buffer views; the limits of the host on
    the size of a Buffer are not modelled *)
Definition NewBuffer (data : list byte) (size : Z) : M value :=
  fun st =>
    (Ok (VBuffer (List.length (heap st))),
     mkState (heap st ++ [Own (firstn (Z.to_nat (to_uint32 size)) data)])
       (allocs st) (drawn st) (trace st)).

(** what a C function leaves in a destination it was given, after
    writing [src] at its start *)
Definition write_into (dst src : list byte) : list byte :=
  firstn (List.length dst) (src ++ skipn (List.length src) dst).

Section WithEnv.
Variable E : env.

Definition malloc (n : Z) : M (option block) :=
  fun st =>
    let k := allocs st in
    let ok := malloc_ok E k n in
    (Ok (if ok then Some (mkBlock k (map (garbage E) (seq 0 (Z.to_nat n)))) else None),
     mkState (heap st) (S k) (drawn st) (trace st ++ [Malloc k n ok])).

Definition free (b : block) : M unit := log (Free (blk_id b)).

(** Modelled from the spec: [bcrypto_scrypt] of scrypt/scrypt.h, the
    scrypt driver of section 4.4.  It validates the parameters per the section 3
    invariants and fails at once on a violation; it then allocates the
    expanded buffer B (128*r*p bytes) and the scratch array V
    (128*r*N bytes), failing if either is refused; it expands, mixes
    the [p] lanes, derives the key into [key] and releases its
    buffers.  The result is the success flag and the content of
    [key]. *)
Definition bcrypto_scrypt (pass : list byte) (passlen : Z) (salt : list byte) (saltlen : Z)
  (N r p : Z) (key : list byte) (keylen : Z) : M (bool * list byte) :=
  if negb (Scrypt.valid_params N r p) then ret (false, key)
  else
    B <- malloc (128 * r * p) ;;
    match B with
    | None => ret (false, key)
    | Some b =>
        V <- malloc (128 * r * N) ;;
        match V with
        | None => free b ;; ret (false, key)
        | Some v =>
            log (Prf (128 * r * p)) ;;
            log_all (map Smix (seq 0 (Z.to_nat p))) ;;
            log (Prf keylen) ;;
            free v ;;
            free b ;;
            ret (true,
                 write_into key
                   (Scrypt.scrypt_kdf (firstn (Z.to_nat passlen) pass)
                      (firstn (Z.to_nat saltlen) salt) N r p keylen))
        end
    end.

(** Modelled from the spec: [bcrypto_pbkdf2] of pbkdf2/pbkdf2.h, the
    PRF dependency [prf(password, salt, iterations, outlen)] over the
    digest named [name]; it fails when the digest registry does not
    know the name ("unsupported digest name"). *)
Definition bcrypto_pbkdf2 (name : string) (data : list byte) (datalen : Z)
  (salt : list byte) (saltlen : Z) (iter : Z) (key : list byte) (keylen : Z)
  : M (bool * list byte) :=
  match EVP_get_digestbyname E name with
  | None => ret (false, key)
  | Some md =>
      log (Prf keylen) ;;
      ret (true,
           write_into key
             (map Word32.byte_of_int
                (PRF.pbkdf2_hmac md
                   (map Word32.int_of_byte (firstn (Z.to_nat datalen) data))
                   (map Word32.int_of_byte (firstn (Z.to_nat saltlen) salt))
                   (Z.to_nat iter) (Z.to_nat keylen))))
  end.

(** Modelled from the spec: [bcrypto_random] of random/random.h, the
    randomness dependency: it fills [size] bytes at offset [off] of
    Buffer [b] from the secure random source and fails when the source
    is unavailable. *)
Definition bcrypto_random (b : nat) (off size : Z) : M bool :=
  log (Random b off size) ;;
  match entropy E with
  | None => ret false
  | Some src =>
      fun st =>
        let d := buffer st b in
        let fresh := map src (seq (drawn st) (Z.to_nat size)) in
        (Ok true,
         mkState
           (poke (heap st) b
              (firstn (Z.to_nat off) d ++ fresh ++ skipn (Z.to_nat (off + size)) d))
           (allocs st) (drawn st + Z.to_nat size) (trace st))
  end.

End WithEnv.

End Native.

(** ** The native methods of bcrypto.cc *)
Module Bcrypto.
Import Host Native.
Local Open Scope string_scope.
Local Open Scope Z_scope.
Local Open Scope native_scope.

Section Methods.
Variable E : env.

Definition pbkdf2 (info : list value) : M value :=
  if (List.length info <? 5)%nat then ThrowError "pbkdf2() requires arguments."
  else if negb (IsString (arg info 0)) then
    ThrowTypeError "First argument must be a string."
  else
  let kbuf := arg info 1 in
  if negb (HasInstance kbuf) then ThrowTypeError "Second argument must be a buffer."
  else
  let sbuf := arg info 2 in
  if negb (HasInstance sbuf) then ThrowTypeError "Third argument must be a buffer."
  else if negb (IsNumber (arg info 3)) then
    ThrowTypeError "Fourth argument must be a number."
  else if negb (IsNumber (arg info 4)) then
    ThrowTypeError "Fifth argument must be a number."
  else
  let name := Utf8String (arg info 0) in
  data <- Data kbuf ;;
  dlen <- Length kbuf ;;
  let datalen := to_uint32 dlen in
  salt <- Data sbuf ;;
  slen <- Length sbuf ;;
  let saltlen := to_uint32 (to_size_t slen) in
  let iter := Uint32Value (arg info 3) in
  let keylen := Uint32Value (arg info 4) in
  key <- malloc E keylen ;;
  match key with
  | None => ThrowError "Could not allocate key."
  | Some k =>
      r <- bcrypto_pbkdf2 E name data datalen salt saltlen iter (blk_bytes k) keylen ;;
      if negb (fst r) then
        free k ;;
        ThrowError "PBKDF2 failed."
      else NewBuffer (snd r) keylen
  end.

Definition pbkdf2_async (info : list value) : M value :=
  if (List.length info <? 6)%nat then ThrowError "pbkdf2_async() requires arguments."
  else if negb (IsString (arg info 0)) then
    ThrowTypeError "First argument must be a string."
  else
  let dbuf := arg info 1 in
  if negb (HasInstance dbuf) then ThrowTypeError "Second argument must be a buffer."
  else
  let sbuf := arg info 2 in
  if negb (HasInstance sbuf) then ThrowTypeError "Third argument must be a buffer."
  else if negb (IsNumber (arg info 3)) then
    ThrowTypeError "Fourth argument must be a number."
  else if negb (IsNumber (arg info 4)) then
    ThrowTypeError "Fifth argument must be a number."
  else if negb (IsFunction (arg info 5)) then
    ThrowTypeError "Sixth argument must be a Function."
  else
  let callback := arg info 5 in
  let name := Utf8String (arg info 0) in
  match EVP_get_digestbyname E name with
  | None => ThrowTypeError "Could not allocate context."
  | Some md =>
      dlen <- Length dbuf ;;
      let datalen := to_uint32 dlen in
      slen <- Length sbuf ;;
      let saltlen := to_uint32 (to_size_t slen) in
      let iter := Uint32Value (arg info 3) in
      let keylen := Uint32Value (arg info 4) in
      log (Queue (PBKDF2Work md dbuf sbuf datalen saltlen iter keylen callback)) ;;
      ret VUndefined
  end.

Definition scrypt (info : list value) : M value :=
  if (List.length info <? 6)%nat then ThrowError "scrypt() requires arguments."
  else
  let pbuf := arg info 0 in
  if negb (HasInstance pbuf) then ThrowTypeError "First argument must be a buffer."
  else
  let sbuf := arg info 1 in
  if negb (HasInstance sbuf) then ThrowTypeError "Second argument must be a buffer."
  else if negb (IsNumber (arg info 2)) then
    ThrowTypeError "Third argument must be a number."
  else if negb (IsNumber (arg info 3)) then
    ThrowTypeError "Fourth argument must be a number."
  else if negb (IsNumber (arg info 4)) then
    ThrowTypeError "Fifth argument must be a number."
  else if negb (IsNumber (arg info 5)) then
    ThrowTypeError "Sixth argument must be a number."
  else
  pass <- Data pbuf ;;
  plen <- Length pbuf ;;
  let passlen := to_uint32 plen in
  salt <- Data sbuf ;;
  slen <- Length sbuf ;;
  let saltlen := to_size_t slen in
  let N := to_uint64 (IntegerValue (arg info 2)) in
  let r := to_uint64 (IntegerValue (arg info 3)) in
  let p := to_uint64 (IntegerValue (arg info 4)) in
  let keylen := to_size_t (IntegerValue (arg info 5)) in
  key <- malloc E keylen ;;
  match key with
  | None => ThrowError "Could not allocate key."
  | Some k =>
      res <- bcrypto_scrypt E pass passlen salt saltlen N r p (blk_bytes k) keylen ;;
      if negb (fst res) then
        free k ;;
        ThrowError "Scrypt failed."
      else NewBuffer (snd res) keylen
  end.

Definition scrypt_async (info : list value) : M value :=
  if (List.length info <? 6)%nat then ThrowError "scrypt_async() requires arguments."
  else
  let pbuf := arg info 0 in
  if negb (HasInstance pbuf) then ThrowTypeError "First argument must be a buffer."
  else
  let sbuf := arg info 1 in
  if negb (HasInstance sbuf) then ThrowTypeError "Second argument must be a buffer."
  else if negb (IsNumber (arg info 2)) then
    ThrowTypeError "Third argument must be a number."
  else if negb (IsNumber (arg info 3)) then
    ThrowTypeError "Fourth argument must be a number."
  else if negb (IsNumber (arg info 4)) then
    ThrowTypeError "Fifth argument must be a number."
  else if negb (IsNumber (arg info 5)) then
    ThrowTypeError "Sixth argument must be a number."
  else if negb (IsFunction (arg info 6)) then
    ThrowTypeError "Seventh argument must be a Function."
  else
  let callback := arg info 6 in
  plen <- Length pbuf ;;
  let passlen := to_uint32 plen in
  slen <- Length sbuf ;;
  let saltlen := to_size_t slen in
  let N := to_uint64 (IntegerValue (arg info 2)) in
  let r := to_uint64 (IntegerValue (arg info 3)) in
  let p := to_uint64 (IntegerValue (arg info 4)) in
  let keylen := to_size_t (IntegerValue (arg info 5)) in
  log (Queue (ScryptWork pbuf sbuf passlen saltlen N r p keylen callback)) ;;
  ret VUndefined.

Definition cleanse (info : list value) : M value :=
  if (List.length info <? 1)%nat then ThrowError "cleanse() requires arguments."
  else
  let buf := arg info 0 in
  if negb (HasInstance buf) then ThrowTypeError "First argument must be a buffer."
  else
  len <- Length buf ;;
  log (Cleanse (ref buf)) ;;
  store (ref buf) (repeat x00 (Z.to_nat len)) ;;
  ret VUndefined.

Definition encipher (info : list value) : M value :=
  if (List.length info <? 3)%nat then ThrowError "encipher() requires arguments."
  else if negb (HasInstance (arg info 0)) then
    ThrowTypeError "First argument must be a buffer."
  else if negb (HasInstance (arg info 1)) then
    ThrowTypeError "Second argument must be a buffer."
  else if negb (HasInstance (arg info 2)) then
    ThrowTypeError "Third argument must be a buffer."
  else
  let bdata := arg info 0 in
  let bkey := arg info 1 in
  let biv := arg info 2 in
  data <- Data bdata ;;
  dlen <- Length bdata ;;
  key <- Data bkey ;;
  klen <- Length bkey ;;
  iv <- Data biv ;;
  ilen <- Length biv ;;
  if negb (klen =? 32) then ThrowError "Bad key size."
  else if negb (ilen =? 16) then ThrowError "Bad IV size."
  else
  let olen := to_uint32 (BCRYPTO_ENCIPHER_SIZE E dlen) in
  out <- malloc E olen ;;
  match out with
  | None => ThrowError "Could not allocate ciphertext."
  | Some o =>
      log (Cipher false) ;;
      match bcrypto_encipher E data key iv with
      | None =>
          free o ;;
          ThrowError "Encipher failed."
      | Some ct => NewBuffer (write_into (blk_bytes o) ct) (Z.of_nat (List.length ct))
      end
  end.

Definition decipher (info : list value) : M value :=
  if (List.length info <? 3)%nat then ThrowError "decipher() requires arguments."
  else if negb (HasInstance (arg info 0)) then
    ThrowTypeError "First argument must be a buffer."
  else if negb (HasInstance (arg info 1)) then
    ThrowTypeError "Second argument must be a buffer."
  else if negb (HasInstance (arg info 2)) then
    ThrowTypeError "Third argument must be a buffer."
  else
  let bdata := arg info 0 in
  let bkey := arg info 1 in
  let biv := arg info 2 in
  data <- Data bdata ;;
  dlen <- Length bdata ;;
  key <- Data bkey ;;
  klen <- Length bkey ;;
  iv <- Data biv ;;
  ilen <- Length biv ;;
  if negb (klen =? 32) then ThrowError "Bad key size."
  else if negb (ilen =? 16) then ThrowError "Bad IV size."
  else
  let olen := to_uint32 (BCRYPTO_DECIPHER_SIZE E dlen) in
  out <- malloc E olen ;;
  match out with
  | None => ThrowError "Could not allocate plaintext."
  | Some o =>
      log (Cipher true) ;;
      match bcrypto_decipher E data key iv with
      | None =>
          free o ;;
          ThrowError "Decipher failed."
      | Some pt => NewBuffer (write_into (blk_bytes o) pt) (Z.of_nat (List.length pt))
      end
  end.

(** the test [(x & 0x80000000) != 0] *)
Definition high_bit (x : Z) : bool := negb (Z.land x 0x80000000 =? 0).

Definition random_fill (info : list value) : M value :=
  if (List.length info <? 3)%nat then ThrowError "random_fill() requires arguments."
  else if negb (HasInstance (arg info 0)) then
    ThrowTypeError "First argument must be a buffer."
  else
  let bdata := arg info 0 in
  if negb (IsNumber (arg info 1)) then
    ThrowTypeError "Second argument must be a number."
  else if negb (IsNumber (arg info 2)) then
    ThrowTypeError "Third argument must be a number."
  else
  len <- Length bdata ;;
  let pos := Uint32Value (arg info 1) in
  let size := Uint32Value (arg info 2) in
  if high_bit len || high_bit pos || high_bit size then ThrowError "Invalid range."
  else if to_uint32 (pos + size) >? len then ThrowError "Size exceeds length."
  else
    ok <- bcrypto_random E (ref bdata) pos size ;;
    if negb ok then ThrowError "Could not get random bytes."
    else ret bdata.

End Methods.

End Bcrypto.

(** ** Vocabulary of the properties *)
Module Props.
Import Host Native Bcrypto.
Local Open Scope string_scope.
Local Open Scope Z_scope.

Definition is_power_of_two (N : Z) : Prop := exists k, 0 <= k /\ N = 2 ^ k.

(** a violation of the section 3 invariants, as the specification lists them *)
Definition violates_invariants (N r p : Z) : Prop :=
  ~ is_power_of_two N \/ N <= 1 \/ r = 0 \/ p = 0 \/ r * p >= 2 ^ 30.

(** the parameters a call of [scrypt] computes with, from its arguments
    and the state it starts in *)
Definition passlen_of (st : state) (pb : nat) : Z :=
  to_uint32 (Z.of_nat (List.length (buffer st pb))).
Definition saltlen_of (st : state) (sb : nat) : Z :=
  to_size_t (Z.of_nat (List.length (buffer st sb))).
Definition param_of (n : Z) : Z := to_uint64 (IntegerValue (VNumber n)).
Definition keylen_of (k : Z) : Z := to_size_t (IntegerValue (VNumber k)).

(** the key of a complete derivation for these arguments *)
Definition derived_key (st : state) (pb sb : nat) (n r p k : Z) : list byte :=
  Scrypt.scrypt_kdf
    (firstn (Z.to_nat (passlen_of st pb)) (buffer st pb))
    (firstn (Z.to_nat (saltlen_of st sb)) (buffer st sb))
    (param_of n) (param_of r) (param_of p) (keylen_of k).

(** the events of a complete derivation: the key buffer, the expanded
    buffer and the scratch array are granted, the PRF expands, every
    lane is mixed, the PRF derives the key, the scratch memory is
    released *)
Definition complete_run (a : nat) (N r p keylen : Z) : list event :=
  [Malloc a keylen true; Malloc (S a) (128 * r * p) true;
   Malloc (S (S a)) (128 * r * N) true; Prf (128 * r * p)] ++
  map Smix (seq 0 (Z.to_nat p)) ++
  [Prf keylen; Free (S (S a)); Free (S a)].

Definition is_malloc (e : event) : bool :=
  match e with Malloc _ _ _ => true | _ => false end.
Definition is_computation (e : event) : bool :=
  match e with Prf _ | Smix _ | Cipher _ => true | _ => false end.

Definition args_scrypt (pb sb : nat) (n r p k : Z) (rest : list value) : list value :=
  VBuffer pb :: VBuffer sb :: VNumber n :: VNumber r :: VNumber p :: VNumber k :: rest.

(** RFC 7914, section 12: scrypt with the empty password and salt,
    N=16, r=1, p=1, dkLen=64 *)
Definition rfc7914_vector_1 : list byte :=
  [x77; xd6; x57; x62; x38; x65; x7b; x20; x3b; x19; xca; x42; xc1; x8a; x04; x97;
   xf1; x6b; x48; x44; xe3; x07; x4a; xe8; xdf; xdf; xfa; x3f; xed; xe2; x14; x42;
   xfc; xd0; x06; x9d; xed; x09; x48; xf8; x32; x6a; x75; x3a; x0f; xc8; x1f; x17;
   xe8; xd3; xe0; xfb; x2e; x0d; x36; x28; xcf; x35; xe2; x0c; x38; xd1; x89; x06].

(** RFC 7914, section 12: scrypt with password "password", salt
    "NaCl", N=1024, r=8, p=16, dkLen=64 *)
Definition rfc7914_vector_2 : list byte :=
  [xfd; xba; xbe; x1c; x9d; x34; x72; x00; x78; x56; xe7; x19; x0d; x01; xe9; xfe;
   x7c; x6a; xd7; xcb; xc8; x23; x78; x30; xe7; x73; x76; x63; x4b; x37; x31; x62;
   x2e; xaf; x30; xd9; x2e; x22; xa3; x88; x6f; xf1; x09; x27; x9d; x98; x30; xda;
   xc7; x27; xaf; xb9; x4a; x83; xee; x6d; x83; x60; xcb; xdf; xa2; xcc; x06; x40].

(** Sample surroundings for concrete runs: every allocation is granted,
    fresh memory is zero, the random source counts upwards, the
    registry knows sha256 only, and the cipher refuses everything. *)
Definition counting (i : nat) : byte :=
  match Byte.of_N (N.of_nat (i mod 256)) with Some b => b | None => x00 end.

Definition surroundings (g : nat -> byte) (e : option (nat -> byte)) : env :=
  {| malloc_ok := fun _ _ => true;
     garbage := g;
     entropy := e;
     EVP_get_digestbyname :=
       fun s => if String.eqb s "sha256" then Some PRF.EVP_sha256 else None;
     BCRYPTO_ENCIPHER_SIZE := fun n => n + (16 - n mod 16);
     BCRYPTO_DECIPHER_SIZE := fun n => n;
     bcrypto_encipher := fun _ _ _ => None;
     bcrypto_decipher := fun _ _ _ => None |}.

Definition sample_env : env := surroundings (fun _ => x00) (Some counting).

(** the same surroundings with no entropy *)
Definition dry_env : env := surroundings (fun _ => x00) None.

(** the same surroundings with other content in fresh memory *)
Definition noisy_env : env := surroundings counting (Some counting).

(** a state whose heap holds the given Buffers *)
Definition start (buffers : list (list byte)) : state :=
  mkState (map Own buffers) 0 0 [].

(** the events a call has added to the trace *)
Definition new_events (st st' : state) : list event :=
  skipn (List.length (trace st)) (trace st').

(** "the call fails before any buffer allocation is performed and
    before any part of the computation executes" *)
Definition fails_before_any_work (st : state) (out : result value * state) : Prop :=
  (exists e, fst out = Throw e) /\
  (forall ev, In ev (new_events st (snd out)) ->
              is_malloc ev = false /\ is_computation ev = false).

Definition password : list byte := list_byte_of_string "password".
Definition NaCl : list byte := list_byte_of_string "NaCl".

(** known answers of the primitives under the engine: SHA-256 of "abc"
    (FIPS 180-4), HMAC-SHA256 with key "Jefe" (RFC 4231, test case 2)
    and PBKDF2-HMAC-SHA256 of "passwd", "salt", c=1, dkLen=64 (RFC 7914,
    section 11) *)
Definition bytes_of (l : list Uint63.int) : list byte := map Word32.byte_of_int l.
Definition ints_of (s : string) : list Uint63.int :=
  map Word32.int_of_byte (list_byte_of_string s).

Definition sha256_abc : list byte :=
  [xba; x78; x16; xbf; x8f; x01; xcf; xea; x41; x41; x40; xde; x5d; xae; x22; x23;
   xb0; x03; x61; xa3; x96; x17; x7a; x9c; xb4; x10; xff; x61; xf2; x00; x15; xad].

Definition hmac_sha256_jefe : list byte :=
  [x5b; xdc; xc1; x46; xbf; x60; x75; x4e; x6a; x04; x24; x26; x08; x95; x75; xc7;
   x5a; x00; x3f; x08; x9d; x27; x39; x83; x9d; xec; x58; xb9; x64; xec; x38; x43].

Definition pbkdf2_passwd_salt : list byte :=
  [x55; xac; x04; x6e; x56; xe3; x08; x9f; xec; x16; x91; xc2; x25; x44; xb6; x05;
   xf9; x41; x85; x21; x6d; xde; x04; x65; xe6; x8b; x9d; x57; xc2; x0d; xac; xbc;
   x49; xca; x9c; xcc; xf1; x79; xb6; x45; x99; x16; x64; xb3; x9d; x77; xef; x31;
   x7c; x71; xb8; x45; xb1; xe3; x0b; xd5; x09; x11; x20; x41; xd3; xa1; x97; x83].

(** *** [random_fill] *)
Definition args_random (b : nat) (pos size : Z) (rest : list value) : list value :=
  VBuffer b :: VNumber pos :: VNumber size :: rest.

Definition buffer_len (st : state) (b : nat) : Z := Z.of_nat (List.length (buffer st b)).

Definition fails {A : Type} (out : result A * state) : Prop :=
  exists e, fst out = Throw e.

(** the range check of [random_fill] on the 32-bit position and size *)
Definition bad_range (st : state) (b : nat) (pos size : Z) : Prop :=
  high_bit (buffer_len st b) || high_bit pos || high_bit size = true \/
  pos + size > buffer_len st b.



(** the content of a Buffer after [fresh] was written at [pos] *)
Definition filled (d : list byte) (pos : Z) (fresh : list byte) : list byte :=
  firstn (Z.to_nat pos) d ++ fresh ++
  skipn (Z.to_nat (pos + Z.of_nat (List.length fresh))) d.

(** the next [size] bytes of a random source *)
Definition draw (src : nat -> byte) (st : state) (size : Z) : list byte :=
  map src (seq (drawn st) (Z.to_nat size)).

(** *** [encipher], [decipher] *)
Definition args_cipher (d k iv : nat) (rest : list value) : list value :=
  VBuffer d :: VBuffer k :: VBuffer iv :: rest.

(** *** [pbkdf2], [pbkdf2_async] *)
Definition args_pbkdf2 (name : string) (kb sb : nat) (iter keylen : Z)
  (rest : list value) : list value :=
  VString name :: VBuffer kb :: VBuffer sb :: VNumber iter :: VNumber keylen :: rest.

Definition args_pbkdf2_async (name : string) (kb sb : nat) (iter keylen : Z)
  (callback : nat) (rest : list value) : list value :=
  VString name :: VBuffer kb :: VBuffer sb :: VNumber iter :: VNumber keylen ::
  VFunction callback :: rest.

(** "the public operation reports that dependency's error verbatim":
    what the caller catches is the error [d] of the dependency *)
Definition reports (out : result value * state) (d : exception) : Prop :=
  fst out = Throw d.

(** *** Buffers that share memory *)

(** the Buffer whose memory Buffer [b] views: itself, or the Buffer it
    is a slice of *)
Definition base (st : state) (b : nat) : nat :=
  match nth b (heap st) (Own []) with
  | Own _ => b
  | Slice p _ _ => p
  end.

(** the bytes of the Buffer a call of [scrypt] returns: the first
    keylen mod 2^32 bytes of the key derived *)
Definition returned_key (st : state) (pb sb : nat) (n r p k : Z) : list byte :=
  firstn (Z.to_nat (to_uint32 (keylen_of k))) (derived_key st pb sb n r p k).

(** Modelled from the spec: "a fully valid keylen-byte key", the key of
    section 4.4 for the whole password, the whole salt and the
    parameters and key length the caller passes *)
Definition fully_valid_key (st : state) (pb sb : nat) (n r p k : Z) : list byte :=
  Scrypt.scrypt_kdf (buffer st pb) (buffer st sb) n r p k.

(** "either a fully valid key of exactly keylen bytes or an explicit
    error" *)
Definition key_or_error (st : state) (pb sb : nat) (n r p k : Z)
  (out : result value * state) : Prop :=
  fails out \/
  exists b, fst out = Ok (VBuffer b) /\
            buffer (snd out) b = fully_valid_key st pb sb n r p k /\
            Z.of_nat (List.length (buffer (snd out) b)) = k.

End Props.

(** ** Vocabulary of the further properties *)
Module MoreProps.
Import Host Native Bcrypto Props.
Local Open Scope string_scope.
Local Open Scope Z_scope.

Definition method : Type := list value -> M value.

Definition args_scrypt_async (pb sb : nat) (n r p k : Z) (callback : nat)
  (rest : list value) : list value :=
  args_scrypt pb sb n r p k (VFunction callback :: rest).

Definition args_cleanse (b : nat) (rest : list value) : list value :=
  VBuffer b :: rest.

(** a method of [k] parameters reports missing arguments under its
    [name] and leaves the state alone, and leaves the state alone
    whenever it throws a TypeError *)
Definition checks_arguments (m : method) (name : string) (k : nat) : Prop :=
  (forall info st,
     (List.length info < k)%nat ->
     m info st = (Throw (mkExn Error (name ++ "() requires arguments.")), st)) /\
  (forall info st e st',
     m info st = (Throw e, st') -> exn_kind e = TypeError -> st' = st).

(** every block granted in these events is released in them *)
Definition all_freed (evs : list event) : Prop :=
  forall i n, In (Malloc i n true) evs -> In (Free i) evs.

(** every Buffer of [st] is still there in [st'], with the same bytes,
    and at most one Buffer has been added *)
Definition keeps_buffers (st st' : state) : Prop :=
  (forall b, (b < List.length (heap st))%nat -> buffer st' b = buffer st b) /\
  (List.length (heap st) <= List.length (heap st') <= S (List.length (heap st)))%nat.

(** nothing has happened but, possibly, the queueing of one piece of
    work *)
Definition only_queues (st st' : state) : Prop :=
  heap st' = heap st /\ allocs st' = allocs st /\ drawn st' = drawn st /\
  (new_events st st' = [] \/ exists w, new_events st st' = [Queue w]).

(** a method that throws has released every block it was granted *)
Definition releases_on_failure (m : method) : Prop :=
  forall info st e st',
    m info st = (Throw e, st') -> all_freed (new_events st st').

(** a method that returns has been granted its first block (the one
    behind the Buffer it returns), has not released it, and has released
    every other block it was granted *)
Definition hands_over_first_block (m : method) : Prop :=
  forall info st v st',
    m info st = (Ok v, st') ->
    (exists n, In (Malloc (allocs st) n true) (new_events st st')) /\
    ~ In (Free (allocs st)) (new_events st st') /\
    (forall i n, In (Malloc i n true) (new_events st st') ->
                 i <> allocs st -> In (Free i) (new_events st st')).

(** a method never changes a Buffer that exists when it is called *)
Definition keeps_inputs (m : method) : Prop :=
  forall info st res st', m info st = (res, st') -> keeps_buffers st st'.

(** a cipher method runs the cipher [run] only on three Buffers, with a
    key of 32 bytes, an IV of 16 bytes and a granted output block; what
    it returns is a new Buffer with the bytes the cipher produced *)
Definition cipher_guarded (m : method)
  (run : list byte -> list byte -> list byte -> option (list byte))
  (olen : state -> nat -> Z) (decrypt : bool) : Prop :=
  forall info st res st',
    m info st = (res, st') ->
    (In (Cipher decrypt) (new_events st st') ->
     exists d k iv rest,
       info = args_cipher d k iv rest /\
       buffer_len st k = 32 /\ buffer_len st iv = 16 /\
       In (Malloc (allocs st) (olen st d) true) (new_events st st')) /\
    (forall v, res = Ok v ->
     exists d k iv rest out,
       info = args_cipher d k iv rest /\
       run (buffer st d) (buffer st k) (buffer st iv) = Some out /\
       v = VBuffer (List.length (heap st)) /\
       (Z.of_nat (List.length out) <= olen st d ->
        buffer st' (List.length (heap st)) = out)).

(** the sizes the cipher methods request for their output *)
Definition encipher_olen (E : env) (st : state) (d : nat) : Z :=
  to_uint32 (BCRYPTO_ENCIPHER_SIZE E (buffer_len st d)).
Definition decipher_olen (E : env) (st : state) (d : nat) : Z :=
  to_uint32 (BCRYPTO_DECIPHER_SIZE E (buffer_len st d)).

(** the key [pbkdf2] derives for these arguments under digest [md] *)
Definition pbkdf2_key (md : PRF.EVP_MD) (st : state) (kb sb : nat) (iter keylen : Z)
  : list byte :=
  map Word32.byte_of_int
    (PRF.pbkdf2_hmac md
       (map Word32.int_of_byte
          (firstn (Z.to_nat (to_uint32 (buffer_len st kb))) (buffer st kb)))
       (map Word32.int_of_byte
          (firstn (Z.to_nat (to_uint32 (to_size_t (buffer_len st sb)))) (buffer st sb)))
       (Z.to_nat (to_uint32 iter)) (Z.to_nat (to_uint32 keylen))).

(** surroundings whose cipher is a toy (it reverses its input), for
    concrete runs *)
Definition toy_env : env :=
  {| malloc_ok := fun _ _ => true;
     garbage := fun _ => x00;
     entropy := Some counting;
     EVP_get_digestbyname :=
       fun s => if String.eqb s "sha256" then Some PRF.EVP_sha256 else None;
     BCRYPTO_ENCIPHER_SIZE := fun n => n + (16 - n mod 16);
     BCRYPTO_DECIPHER_SIZE := fun n => n;
     bcrypto_encipher := fun d _ _ => Some (rev d);
     bcrypto_decipher := fun d _ _ => Some (rev d) |}.

End MoreProps.

(** * Properties *)

(** ** Powers of two and the test [N & (N - 1)] *)
Module Pow2.
Import Props.
Local Open Scope Z_scope.

Lemma land_even_odd (x y : Z) : Z.land (2 * x) (2 * y + 1) = 2 * Z.land x y.
Proof.
  apply Z.bits_inj'. intros n Hn.
  rewrite Z.land_spec.
  destruct (Z.eq_dec n 0) as [-> | Hne].
  - rewrite !Z.testbit_even_0. reflexivity.
  - replace n with (Z.succ (n - 1)) by lia.
    rewrite !Z.testbit_even_succ, Z.testbit_odd_succ by lia.
    rewrite Z.land_spec. reflexivity.
Qed.

Lemma land_odd_even (x : Z) : Z.land (2 * x + 1) (2 * x) = 2 * x.
Proof.
  apply Z.bits_inj'. intros n Hn.
  rewrite Z.land_spec.
  destruct (Z.eq_dec n 0) as [-> | Hne].
  - rewrite Z.testbit_even_0, Z.testbit_odd_0. reflexivity.
  - replace n with (Z.succ (n - 1)) by lia.
    rewrite Z.testbit_even_succ, Z.testbit_odd_succ by lia.
    apply andb_diag.
Qed.

Lemma pos_land_pred (q : positive) :
  Z.land (Z.pos q) (Z.pos q - 1) = 0 -> is_power_of_two (Z.pos q).
Proof.
  induction q as [q IH | q IH | ]; intros H.
  - exfalso. rewrite Pos2Z.inj_xI in H.
    replace (2 * Z.pos q + 1 - 1) with (2 * Z.pos q) in H by lia.
    rewrite land_odd_even in H. lia.
  - rewrite Pos2Z.inj_xO in H.
    replace (2 * Z.pos q - 1) with (2 * (Z.pos q - 1) + 1) in H by lia.
    rewrite land_even_odd in H.
    destruct IH as [k [Hk Hq]]; [lia |].
    exists (k + 1). split; [lia |].
    rewrite Pos2Z.inj_xO, Hq, Z.pow_add_r by lia. lia.
  - exists 0. split; [lia | reflexivity].
Qed.

(** what the mask test guarantees *)
Lemma land_pred_power_of_two (N : Z) :
  0 < N -> Z.land N (N - 1) = 0 -> is_power_of_two N.
Proof.
  intros HN H. destruct N as [| q | q]; try lia.
  apply pos_land_pred. exact H.
Qed.

Lemma power_of_two_land_pred (N : Z) :
  is_power_of_two N -> Z.land N (N - 1) = 0.
Proof.
  intros [k [Hk ->]].
  replace (2 ^ k - 1) with (Z.ones k) by (rewrite Z.ones_equiv; lia).
  apply Z.bits_inj'. intros n Hn.
  rewrite Z.land_spec, Z.bits_0.
  destruct (Z.eq_dec n k) as [-> | Hne].
  - rewrite Z.ones_spec_high by lia. apply andb_false_r.
  - rewrite Z.pow2_bits_false by lia. reflexivity.
Qed.

(** a violation in the words of the specification is refused by the
    validation *)
Lemma violation_refused (N r p : Z) :
  violates_invariants N r p -> Scrypt.valid_params N r p = false.
Proof.
  intros Hv. unfold Scrypt.valid_params.
  destruct (Z.land N (N - 1) =? 0) eqn:Hland; [| reflexivity].
  destruct (1 <? N) eqn:HN; [| reflexivity].
  destruct (0 <? r) eqn:H0r; [| reflexivity].
  destruct (0 <? p) eqn:H0p; [| reflexivity].
  destruct (r * p <? 2 ^ 30) eqn:Hrp; [| reflexivity].
  exfalso.
  apply Z.eqb_eq in Hland. apply Z.ltb_lt in HN, H0r, H0p, Hrp.
  destruct Hv as [Hv | [Hv | [Hv | [Hv | Hv]]]]; try lia.
  apply Hv. apply land_pred_power_of_two; [lia | exact Hland].
Qed.

Lemma valid_params_sound (N r p : Z) :
  Scrypt.valid_params N r p = true ->
  is_power_of_two N /\ 1 < N /\ 0 < r /\ 0 < p /\ r * p < 2 ^ 30.
Proof.
  unfold Scrypt.valid_params. intros H.
  repeat (apply andb_prop in H; destruct H as [H ?]).
  apply Z.eqb_eq in H.
  repeat match goal with
         | h : (_ <? _) = true |- _ => apply Z.ltb_lt in h
         end.
  repeat split; try lia.
  apply land_pred_power_of_two; [lia | exact H].
Qed.

End Pow2.

(** ** Output lengths of the PRF and of the engine *)
Module Lengths.
Import Word32.

Lemma digest_bytes_length (s : SHA256.hstate) :
  List.length (SHA256.digest_bytes s) = 32%nat.
Proof. destruct s. reflexivity. Qed.

Lemma sha256_length (m : list int) : List.length (SHA256.sha256 m) = 32%nat.
Proof. unfold SHA256.sha256. apply digest_bytes_length. Qed.

Lemma hmac_sha256_length (key msg : list int) :
  List.length (PRF.hmac PRF.EVP_sha256 key msg) = 32%nat.
Proof. unfold PRF.hmac. cbn [PRF.md_hash PRF.EVP_sha256]. apply sha256_length. Qed.

Lemma T_length (pass salt : list int) (l : nat) (i : int) :
  List.length (PRF.T (PRF.hmac PRF.EVP_sha256 pass) salt 1 l i) = (32 * l)%nat.
Proof.
  revert i. induction l as [| l IH]; intros i; [reflexivity |].
  cbn [PRF.T]. rewrite length_app, IH.
  unfold PRF.F. cbn [Nat.sub PRF.iterate].
  rewrite hmac_sha256_length. lia.
Qed.

Lemma pbkdf2_length (pass salt : list int) (dkLen : nat) :
  List.length (PRF.pbkdf2_hmac PRF.EVP_sha256 pass salt 1 dkLen) = dkLen.
Proof.
  unfold PRF.pbkdf2_hmac. cbn [PRF.md_size PRF.EVP_sha256].
  rewrite length_firstn, T_length.
  pose proof (Nat.div_mod_eq (dkLen + 32 - 1) 32) as Hd.
  pose proof (Nat.mod_upper_bound (dkLen + 32 - 1) 32) as Hm.
  lia.
Qed.

(** the engine produces exactly [keylen] bytes *)
Lemma scrypt_kdf_length (pass salt : list byte) (N r p keylen : Z) :
  List.length (Scrypt.scrypt_kdf pass salt N r p keylen) = Z.to_nat keylen.
Proof.
  unfold Scrypt.scrypt_kdf. rewrite length_map. apply pbkdf2_length.
Qed.

End Lengths.

(** ** Known answers of the primitives under the engine *)
Module KnownAnswers.
Import Props.

Example sha256_known : bytes_of (SHA256.sha256 (ints_of "abc")) = sha256_abc.
Proof. vm_compute. reflexivity. Qed.

Example hmac_sha256_known :
  bytes_of (PRF.hmac PRF.EVP_sha256 (ints_of "Jefe")
              (ints_of "what do ya want for nothing?")) = hmac_sha256_jefe.
Proof. vm_compute. reflexivity. Qed.

Example pbkdf2_hmac_sha256_known :
  bytes_of (PRF.pbkdf2_hmac PRF.EVP_sha256 (ints_of "passwd") (ints_of "salt") 1 64) =
  pbkdf2_passwd_salt.
Proof. vm_compute. reflexivity. Qed.

End KnownAnswers.

(** ** The runtime model: Buffers, blocks and steps of the monad *)
Module Runtime.
Import Host Native Bcrypto Props.
Local Open Scope string_scope.
Local Open Scope Z_scope.
Local Open Scope native_scope.

#[local] Arguments Scrypt.scrypt_kdf : simpl never.

Ltac run :=
  cbv [bind ret throw log log_all ThrowError ThrowTypeError malloc free NewBuffer
       Data Length store];
  cbn [heap allocs drawn trace fst snd negb blk_id blk_bytes].

Lemma fresh_block_length (E : env) (n : Z) :
  List.length (map (garbage E) (seq 0 (Z.to_nat n))) = Z.to_nat n.
Proof. rewrite length_map, length_seq. reflexivity. Qed.

Lemma write_into_full (dst src : list byte) :
  List.length dst = List.length src -> write_into dst src = src.
Proof.
  intros H. unfold write_into.
  rewrite firstn_app, H, firstn_all, Nat.sub_diag. cbn [firstn].
  apply app_nil_r.
Qed.

Lemma write_into_length (dst src : list byte) :
  List.length (write_into dst src) = List.length dst.
Proof.
  unfold write_into. rewrite length_firstn, length_app, length_skipn. lia.
Qed.

Lemma buffer_new (h : list cell) (d : list byte) (a n : nat) (t : list event) :
  buffer (mkState (h ++ [Own d]) a n t) (List.length h) = d.
Proof. unfold buffer, view. cbn [heap]. rewrite nth_middle. reflexivity. Qed.

(** a new Buffer leaves the older ones as they are: a slice views an
    older Buffer *)
Lemma buffer_old (h : list cell) (c : cell) (a n : nat) (t : list event) (b : nat) :
  (b < List.length h)%nat ->
  buffer (mkState (h ++ [c]) a n t) b = view h b.
Proof.
  intros H. unfold buffer, view. cbn [heap]. rewrite app_nth1 by exact H.
  destruct (nth b h (Own [])) as [l | p off len]; [reflexivity |].
  destruct (Nat.ltb_spec p b) as [Hp | Hp]; [| reflexivity].
  unfold memory. rewrite app_nth1 by lia. reflexivity.
Qed.

Lemma replace_nth_same {A : Type} (l : list A) (n : nat) (x d : A) :
  (n < List.length l)%nat -> nth n (replace_nth n l x) d = x.
Proof.
  revert n. induction l as [| y l IH]; intros [| n] H; cbn in *; try lia.
  - reflexivity.
  - apply IH. lia.
Qed.

Lemma replace_nth_other {A : Type} (l : list A) (n m : nat) (x d : A) :
  n <> m -> nth m (replace_nth n l x) d = nth m l d.
Proof.
  revert n m. induction l as [| y l IH]; intros [| n] [| m] H; cbn; try reflexivity.
  - lia.
  - apply IH. lia.
Qed.

Lemma replace_nth_length {A : Type} (l : list A) (n : nat) (x : A) :
  List.length (replace_nth n l x) = List.length l.
Proof.
  revert n. induction l as [| y l IH]; intros [| n]; cbn; try reflexivity.
  rewrite IH. reflexivity.
Qed.

(** *** writing through a Buffer *)
Lemma poke_length (h : list cell) (b : nat) (d : list byte) :
  List.length (poke h b d) = List.length h.
Proof.
  unfold poke. destruct (nth b h (Own [])) as [l | p off len];
    [apply replace_nth_length |].
  destruct (p <? b)%nat; [| reflexivity].
  destruct (nth p h (Own [])); [apply replace_nth_length | reflexivity].
Qed.

Lemma splice_view (l : list byte) (off len : nat) (d : list byte) :
  List.length d = List.length (firstn len (skipn off l)) ->
  firstn len (skipn off (splice l off d)) = d.
Proof.
  intros H. rewrite length_firstn, length_skipn in H. unfold splice.
  destruct (Nat.le_gt_cases off (List.length l)) as [Hle | Hgt].
  - rewrite skipn_app, length_firstn, Nat.min_l by exact Hle.
    rewrite Nat.sub_diag, skipn_firstn_comm, Nat.sub_diag. cbn [firstn skipn app].
    rewrite firstn_app.
    destruct (Nat.le_gt_cases len (List.length l - off)) as [Hl | Hl].
    + rewrite Nat.min_l in H by exact Hl. rewrite <- H at 1.
      rewrite firstn_all, H, Nat.sub_diag. cbn [firstn]. apply app_nil_r.
    + rewrite Nat.min_r in H by lia.
      rewrite (firstn_all2 d) by lia.
      rewrite (skipn_all2 l) by lia.
      rewrite firstn_nil. apply app_nil_r.
  - assert (Hd : d = []) by (apply length_zero_iff_nil; lia). subst d.
    rewrite (skipn_all2 (firstn off l ++ [] ++ skipn (off + List.length []) l)).
    + apply firstn_nil.
    + rewrite !length_app, length_firstn, length_skipn. cbn [List.length]. lia.
Qed.

(** the Buffer written holds what was written *)
Lemma view_poke_same (h : list cell) (b : nat) (d : list byte) :
  List.length d = List.length (view h b) -> view (poke h b d) b = d.
Proof.
  unfold view, poke. intros H.
  destruct (nth b h (Own [])) as [l | p off len] eqn:Hb.
  - destruct (Nat.lt_ge_cases b (List.length h)) as [Hlt | Hge].
    + rewrite replace_nth_same by exact Hlt. reflexivity.
    + rewrite nth_overflow in Hb by exact Hge. injection Hb as <-.
      rewrite nth_overflow by (rewrite replace_nth_length; exact Hge).
      symmetry. apply length_zero_iff_nil. exact H.
  - assert (Hlt : (b < List.length h)%nat).
    { destruct (Nat.lt_ge_cases b (List.length h)) as [Hlt | Hge]; [exact Hlt |].
      rewrite nth_overflow in Hb by exact Hge. discriminate Hb. }
    destruct (Nat.ltb_spec p b) as [Hp | Hp].
    + unfold memory in H.
      destruct (nth p h (Own [])) as [l | p' off' len'] eqn:Hpar.
      * rewrite replace_nth_other, Hb by lia.
        destruct (Nat.ltb_spec p b); [| lia].
        unfold memory. rewrite replace_nth_same by lia.
        apply splice_view. exact H.
      * rewrite Hb. destruct (Nat.ltb_spec p b); [| lia].
        unfold memory. rewrite Hpar.
        rewrite skipn_nil, firstn_nil in H |- *.
        symmetry. apply length_zero_iff_nil. exact H.
    + rewrite Hb. destruct (Nat.ltb_spec p b); [lia |].
      symmetry. apply length_zero_iff_nil. exact H.
Qed.

Lemma view_replace_other (h : list cell) (c : nat) (x : cell) (b : nat) :
  c <> b -> c <> base (mkState h 0 0 []) b -> view (replace_nth c h x) b = view h b.
Proof.
  unfold view, base, memory. cbn [heap]. intros Hb Hc.
  rewrite replace_nth_other by exact Hb.
  destruct (nth b h (Own [])) as [l | p off len]; [reflexivity |].
  rewrite replace_nth_other by exact Hc. reflexivity.
Qed.

(** a Buffer over other memory is not changed *)
Lemma view_poke_other (h : list cell) (b b' : nat) (d : list byte) :
  base (mkState h 0 0 []) b' <> base (mkState h 0 0 []) b ->
  view (poke h b d) b' = view h b'.
Proof.
  unfold poke. intros H.
  destruct (nth b h (Own [])) as [l | p off len] eqn:Hb.
  - assert (Hbase : base (mkState h 0 0 []) b = b)
      by (unfold base; cbn [heap]; rewrite Hb; reflexivity).
    rewrite Hbase in H.
    apply view_replace_other; [| auto].
    intros <-. apply H. exact Hbase.
  - assert (Hbase : base (mkState h 0 0 []) b = p)
      by (unfold base; cbn [heap]; rewrite Hb; reflexivity).
    rewrite Hbase in H.
    destruct (p <? b)%nat; [| reflexivity].
    destruct (nth p h (Own [])) as [l | p' off' len'] eqn:Hp; [| reflexivity].
    apply view_replace_other; [| auto].
    intros <-. apply H. unfold base. cbn [heap]. rewrite Hp. reflexivity.
Qed.

(** *** [scrypt]: past the argument checks *)
Lemma scrypt_steps (E : env) (pb sb : nat) (n r p k : Z) (rest : list value)
  (st : state) :
  scrypt E (args_scrypt pb sb n r p k rest) st =
  (key <- malloc E (keylen_of k) ;;
   match key with
   | None => ThrowError "Could not allocate key."
   | Some b =>
       res <- bcrypto_scrypt E (buffer st pb) (passlen_of st pb)
                (buffer st sb) (saltlen_of st sb)
                (param_of n) (param_of r) (param_of p) (blk_bytes b) (keylen_of k) ;;
       if negb (fst res) then free b ;; ThrowError "Scrypt failed."
       else NewBuffer (snd res) (keylen_of k)
   end) st.
Proof. reflexivity. Qed.

(** the key buffer is refused *)
Lemma scrypt_key_refused (E : env) (pb sb : nat) (n r p k : Z) (rest : list value)
  (st : state) :
  malloc_ok E (allocs st) (keylen_of k) = false ->
  scrypt E (args_scrypt pb sb n r p k rest) st =
  (Throw (mkExn Error "Could not allocate key."),
   mkState (heap st) (S (allocs st)) (drawn st)
     (trace st ++ [Malloc (allocs st) (keylen_of k) false])).
Proof.
  intros Hk. rewrite scrypt_steps. run. rewrite Hk. reflexivity.
Qed.

(** the parameters are refused: the key buffer has been requested, and
    is released *)
Lemma scrypt_params_refused (E : env) (pb sb : nat) (n r p k : Z) (rest : list value)
  (st : state) :
  malloc_ok E (allocs st) (keylen_of k) = true ->
  Scrypt.valid_params (param_of n) (param_of r) (param_of p) = false ->
  scrypt E (args_scrypt pb sb n r p k rest) st =
  (Throw (mkExn Error "Scrypt failed."),
   mkState (heap st) (S (allocs st)) (drawn st)
     (trace st ++ [Malloc (allocs st) (keylen_of k) true; Free (allocs st)])).
Proof.
  intros Hk Hv. rewrite scrypt_steps. run. rewrite Hk.
  unfold bcrypto_scrypt. rewrite Hv. run.
  rewrite <- app_assoc. reflexivity.
Qed.

(** the expanded buffer is refused *)
Lemma scrypt_expanded_refused (E : env) (pb sb : nat) (n r p k : Z) (rest : list value)
  (st : state) :
  malloc_ok E (allocs st) (keylen_of k) = true ->
  Scrypt.valid_params (param_of n) (param_of r) (param_of p) = true ->
  malloc_ok E (S (allocs st)) (128 * param_of r * param_of p) = false ->
  scrypt E (args_scrypt pb sb n r p k rest) st =
  (Throw (mkExn Error "Scrypt failed."),
   mkState (heap st) (S (S (allocs st))) (drawn st)
     (trace st ++ [Malloc (allocs st) (keylen_of k) true;
                   Malloc (S (allocs st)) (128 * param_of r * param_of p) false;
                   Free (allocs st)])).
Proof.
  intros Hk Hv HB. rewrite scrypt_steps. run. rewrite Hk.
  unfold bcrypto_scrypt. rewrite Hv. run. rewrite HB. run.
  rewrite <- !app_assoc. reflexivity.
Qed.

(** the scratch array is refused *)
Lemma scrypt_scratch_refused (E : env) (pb sb : nat) (n r p k : Z) (rest : list value)
  (st : state) :
  malloc_ok E (allocs st) (keylen_of k) = true ->
  Scrypt.valid_params (param_of n) (param_of r) (param_of p) = true ->
  malloc_ok E (S (allocs st)) (128 * param_of r * param_of p) = true ->
  malloc_ok E (S (S (allocs st))) (128 * param_of r * param_of n) = false ->
  scrypt E (args_scrypt pb sb n r p k rest) st =
  (Throw (mkExn Error "Scrypt failed."),
   mkState (heap st) (S (S (S (allocs st)))) (drawn st)
     (trace st ++ [Malloc (allocs st) (keylen_of k) true;
                   Malloc (S (allocs st)) (128 * param_of r * param_of p) true;
                   Malloc (S (S (allocs st))) (128 * param_of r * param_of n) false;
                   Free (S (allocs st)); Free (allocs st)])).
Proof.
  intros Hk Hv HB HV. rewrite scrypt_steps. run. rewrite Hk.
  unfold bcrypto_scrypt. rewrite Hv. run. rewrite HB. run. rewrite HV. run.
  rewrite <- !app_assoc. reflexivity.
Qed.

(** everything is granted: the complete derivation *)
Lemma scrypt_success (E : env) (pb sb : nat) (n r p k : Z) (rest : list value)
  (st : state) :
  malloc_ok E (allocs st) (keylen_of k) = true ->
  Scrypt.valid_params (param_of n) (param_of r) (param_of p) = true ->
  malloc_ok E (S (allocs st)) (128 * param_of r * param_of p) = true ->
  malloc_ok E (S (S (allocs st))) (128 * param_of r * param_of n) = true ->
  scrypt E (args_scrypt pb sb n r p k rest) st =
  (Ok (VBuffer (List.length (heap st))),
   mkState (heap st ++ [Own (returned_key st pb sb n r p k)])
     (S (S (S (allocs st)))) (drawn st)
     (trace st ++
      complete_run (allocs st) (param_of n) (param_of r) (param_of p) (keylen_of k))).
Proof.
  intros Hk Hv HB HV. rewrite scrypt_steps. run. rewrite Hk.
  unfold bcrypto_scrypt. rewrite Hv. run. rewrite HB. run. rewrite HV. run.
  rewrite write_into_full
    by (rewrite fresh_block_length, Lengths.scrypt_kdf_length; reflexivity).
  unfold complete_run, returned_key, derived_key.
  rewrite <- !app_assoc. reflexivity.
Qed.

End Runtime.

(** ** Outcomes of [scrypt] *)
Module ScryptOutcomes.
Import Host Native Bcrypto Props Runtime.
Local Open Scope string_scope.
Local Open Scope Z_scope.

(** a call that returns a value was given two Buffers and four numbers *)
Lemma scrypt_ok_typed (E : env) (info : list value) (st st' : state) (v : value) :
  scrypt E info st = (Ok v, st') ->
  exists pb sb n r p k rest, info = args_scrypt pb sb n r p k rest.
Proof.
  intros H.
  destruct info as [| a0 [| a1 [| a2 [| a3 [| a4 [| a5 rest]]]]]];
    try discriminate H.
  destruct a0 as [| | | pb |]; try discriminate H.
  destruct a1 as [| | | sb |]; try discriminate H.
  destruct a2 as [| | n | |]; try discriminate H.
  destruct a3 as [| | r | |]; try discriminate H.
  destruct a4 as [| | p | |]; try discriminate H.
  destruct a5 as [| | k | |]; try discriminate H.
  exists pb, sb, n, r, p, k, rest. reflexivity.
Qed.

(** the only way to a returned value is the complete derivation *)
Lemma scrypt_ok_inv (E : env) (pb sb : nat) (n r p k : Z) (rest : list value)
  (st st' : state) (v : value) :
  scrypt E (args_scrypt pb sb n r p k rest) st = (Ok v, st') ->
  Scrypt.valid_params (param_of n) (param_of r) (param_of p) = true /\
  v = VBuffer (List.length (heap st)) /\
  st' = mkState (heap st ++ [Own (returned_key st pb sb n r p k)])
          (S (S (S (allocs st)))) (drawn st)
          (trace st ++
           complete_run (allocs st) (param_of n) (param_of r) (param_of p)
             (keylen_of k)).
Proof.
  intros H.
  destruct (malloc_ok E (allocs st) (keylen_of k)) eqn:Hk;
    [| rewrite scrypt_key_refused in H by exact Hk; discriminate H].
  destruct (Scrypt.valid_params (param_of n) (param_of r) (param_of p)) eqn:Hv;
    [| rewrite scrypt_params_refused in H by assumption; discriminate H].
  destruct (malloc_ok E (S (allocs st)) (128 * param_of r * param_of p)) eqn:HB;
    [| rewrite scrypt_expanded_refused in H by assumption; discriminate H].
  destruct (malloc_ok E (S (S (allocs st))) (128 * param_of r * param_of n)) eqn:HV;
    [| rewrite scrypt_scratch_refused in H by assumption; discriminate H].
  rewrite scrypt_success in H by assumption.
  inversion H; subst. auto.
Qed.

Lemma derived_key_length (st : state) (pb sb : nat) (n r p k : Z) :
  List.length (derived_key st pb sb n r p k) = Z.to_nat (keylen_of k).
Proof. unfold derived_key. apply Lengths.scrypt_kdf_length. Qed.

Lemma keylen_of_range (k : Z) : 0 <= keylen_of k < 2 ^ 64.
Proof. unfold keylen_of, to_size_t. apply Z.mod_pos_bound. lia. Qed.

(** the Buffer returned is over the first keylen mod 2^32 bytes of the
    key block *)
Lemma returned_key_length (st : state) (pb sb : nat) (n r p k : Z) :
  Z.of_nat (List.length (returned_key st pb sb n r p k)) = to_uint32 (keylen_of k).
Proof.
  unfold returned_key. rewrite length_firstn, derived_key_length.
  pose proof (keylen_of_range k) as Hr.
  pose proof (Z.mod_pos_bound (keylen_of k) (2 ^ 32) ltac:(lia)) as Hu.
  assert (to_uint32 (keylen_of k) <= keylen_of k)
    by (unfold to_uint32; apply Z.mod_le; lia).
  unfold to_uint32 in *. lia.
Qed.

Lemma returned_key_whole (st : state) (pb sb : nat) (n r p k : Z) :
  keylen_of k < 2 ^ 32 ->
  returned_key st pb sb n r p k = derived_key st pb sb n r p k.
Proof.
  intros H. unfold returned_key.
  pose proof (keylen_of_range k) as Hr.
  unfold to_uint32. rewrite Z.mod_small by lia.
  rewrite <- (derived_key_length st pb sb n r p k). apply firstn_all.
Qed.

Lemma keylen_of_small (k : Z) : 0 <= k < 2 ^ 63 -> keylen_of k = k.
Proof.
  intros H. unfold keylen_of, to_size_t, IntegerValue.
  rewrite Z.min_l, Z.max_r by lia.
  apply Z.mod_small. lia.
Qed.

Lemma param_of_small (n : Z) : 0 <= n < 2 ^ 63 -> param_of n = n.
Proof.
  intros H. unfold param_of, to_uint64, IntegerValue.
  rewrite Z.min_l, Z.max_r by lia.
  apply Z.mod_small. lia.
Qed.

End ScryptOutcomes.

(** ** The scrypt method: claims C1 to C5 *)
Module ScryptClaims.
Import Host Native Bcrypto Props Runtime ScryptOutcomes.
Local Open Scope string_scope.
Local Open Scope Z_scope.

#[local] Arguments Scrypt.scrypt_kdf : simpl never.

(** C1, as stated, fails: with N = 3 (not a power of two) the call
    does throw, but only after the key buffer has been requested from
    malloc (and granted): the validation is inside [bcrypto_scrypt],
    which [scrypt] calls after [malloc(keylen)]. *)
Lemma scrypt_allocates_before_validating :
  violates_invariants (param_of 3) (param_of 1) (param_of 1) /\
  ~ fails_before_any_work (start [[]; []])
      (scrypt sample_env (args_scrypt 0 1 3 1 1 64 []) (start [[]; []])).
Proof.
  split.
  - left. intros Hp. apply Pow2.power_of_two_land_pred in Hp. discriminate Hp.
  - rewrite scrypt_params_refused by reflexivity.
    intros [_ H].
    destruct (H (Malloc 0 (keylen_of 64) true)) as [Hm _].
    + left. reflexivity.
    + discriminate Hm.
Qed.

(** C1, amended: when the parameters violate the section 3 invariants the call
    fails and returns no key.  The key buffer is requested first; if it
    is refused the error is "Could not allocate key.", otherwise the
    parameters are refused, the key buffer is released and the error is
    "Scrypt failed.".  Nothing else is allocated (no expanded buffer, no
    scratch array) and no part of the computation runs. *)
Theorem scrypt_invalid_params_fail (E : env) (pb sb : nat) (n r p k : Z)
  (rest : list value) (st : state) :
  violates_invariants (param_of n) (param_of r) (param_of p) ->
  scrypt E (args_scrypt pb sb n r p k rest) st =
  if malloc_ok E (allocs st) (keylen_of k)
  then (Throw (mkExn Error "Scrypt failed."),
        mkState (heap st) (S (allocs st)) (drawn st)
          (trace st ++ [Malloc (allocs st) (keylen_of k) true; Free (allocs st)]))
  else (Throw (mkExn Error "Could not allocate key."),
        mkState (heap st) (S (allocs st)) (drawn st)
          (trace st ++ [Malloc (allocs st) (keylen_of k) false])).
Proof.
  intros Hv. apply Pow2.violation_refused in Hv.
  destruct (malloc_ok E (allocs st) (keylen_of k)) eqn:Hk.
  - apply scrypt_params_refused; assumption.
  - apply scrypt_key_refused; assumption.
Qed.

Lemma scrypt_invalid_params_fail_witness :
  violates_invariants (param_of 16) (param_of 0) (param_of 1) /\
  scrypt sample_env (args_scrypt 0 1 16 0 1 64 []) (start [[]; []]) =
  (Throw (mkExn Error "Scrypt failed."),
   mkState [Own []; Own []] 1 0 [Malloc 0 64 true; Free 0]).
Proof.
  split.
  - right. right. left. reflexivity.
  - apply (scrypt_invalid_params_fail sample_env 0 1 16 0 1 64 [] (start [[]; []])).
    right. right. left. reflexivity.
Defined.

Lemma oversized_key_returned (k : Z) :
  scrypt sample_env (args_scrypt 0 1 2 1 1 k []) (start [password; NaCl]) =
  (Ok (VBuffer 2),
   mkState (heap (start [password; NaCl]) ++
            [Own (returned_key (start [password; NaCl]) 0 1 2 1 1 k)]) 3 0
     (complete_run 0 (param_of 2) (param_of 1) (param_of 1) (keylen_of k))).
Proof.
  apply (scrypt_success sample_env 0 1 2 1 1 k [] (start [password; NaCl]));
    reflexivity.
Qed.

Lemma oversized_key_length (k : Z) :
  Z.of_nat (List.length
    (buffer (snd (scrypt sample_env (args_scrypt 0 1 2 1 1 k [])
                    (start [password; NaCl]))) 2)) = to_uint32 (keylen_of k).
Proof.
  rewrite oversized_key_returned. cbn [snd].
  rewrite <- (returned_key_length (start [password; NaCl]) 0 1 2 1 1 k).
  reflexivity.
Qed.

(** C2, as stated, fails: asked for a key of 2^32 + 32 bytes, with
    every allocation granted, [scrypt] throws nothing and returns a
    Buffer of 32 bytes, the head of the key derived: [Nan::NewBuffer]
    takes the size as a 32-bit value.  The caller receives neither a key
    of exactly keylen bytes nor an error. *)
Lemma scrypt_truncates_oversized_key :
  fst (scrypt sample_env (args_scrypt 0 1 2 1 1 (2 ^ 32 + 32) [])
         (start [password; NaCl])) = Ok (VBuffer 2) /\
  Z.of_nat (List.length
    (buffer (snd (scrypt sample_env (args_scrypt 0 1 2 1 1 (2 ^ 32 + 32) [])
                    (start [password; NaCl]))) 2)) = 32 /\
  ~ key_or_error (start [password; NaCl]) 0 1 2 1 1 (2 ^ 32 + 32)
      (scrypt sample_env (args_scrypt 0 1 2 1 1 (2 ^ 32 + 32) [])
         (start [password; NaCl])).
Proof.
  assert (Hlen :
    Z.of_nat (List.length
      (buffer (snd (scrypt sample_env (args_scrypt 0 1 2 1 1 (2 ^ 32 + 32) [])
                      (start [password; NaCl]))) 2)) = 32).
  { rewrite oversized_key_length. reflexivity. }
  split; [rewrite oversized_key_returned; reflexivity |].
  split; [exact Hlen |].
  intros [[e He] | (b & Hb & _ & Hk)].
  - rewrite oversized_key_returned in He. discriminate He.
  - rewrite oversized_key_returned in Hb. cbn [fst] in Hb. injection Hb as <-.
    rewrite Hlen in Hk. discriminate Hk.
Qed.

(** C2, amended: a call of [scrypt] either throws, or returns a new
    Buffer that holds the first keylen mod 2^32 bytes of the key of a
    complete derivation (validated parameters, the expansion, all [p]
    lanes, the final PRF) over the password bytes the binding passes on.
    No other value is ever returned.  When the arguments are in range
    (a key length below 2^32, a password shorter than 2^32 bytes,
    parameters below 2^63) the Buffer is the fully valid key of exactly
    keylen bytes. *)
Theorem scrypt_key_or_error (E : env) (info : list value) (st : state) :
  (exists e st', scrypt E info st = (Throw e, st')) \/
  (exists pb sb n r p k rest st',
     info = args_scrypt pb sb n r p k rest /\
     scrypt E info st = (Ok (VBuffer (List.length (heap st))), st') /\
     Scrypt.valid_params (param_of n) (param_of r) (param_of p) = true /\
     new_events st st' =
       complete_run (allocs st) (param_of n) (param_of r) (param_of p) (keylen_of k) /\
     buffer st' (List.length (heap st)) =
       firstn (Z.to_nat (to_uint32 (keylen_of k))) (derived_key st pb sb n r p k) /\
     List.length (derived_key st pb sb n r p k) = Z.to_nat (keylen_of k) /\
     Z.of_nat (List.length (buffer st' (List.length (heap st)))) =
       to_uint32 (keylen_of k) /\
     (0 <= k < 2 ^ 32 -> buffer_len st pb < 2 ^ 32 -> buffer_len st sb < 2 ^ 64 ->
      0 <= n < 2 ^ 63 -> 0 <= r < 2 ^ 63 -> 0 <= p < 2 ^ 63 ->
      key_or_error st pb sb n r p k (scrypt E info st))).
Proof.
  destruct (scrypt E info st) as [[v | e] st'] eqn:H.
  - right.
    destruct (scrypt_ok_typed E info st st' v H)
      as (pb & sb & n & r & p & k & rest & Hinfo).
    subst info.
    destruct (scrypt_ok_inv E pb sb n r p k rest st st' v H) as (Hv & -> & ->).
    exists pb, sb, n, r, p, k, rest.
    eexists. split; [reflexivity |]. split; [reflexivity |].
    split; [exact Hv |].
    split.
    { unfold new_events. cbn [trace].
      rewrite skipn_app, skipn_all, Nat.sub_diag. reflexivity. }
    rewrite buffer_new. split; [reflexivity |].
    split; [apply derived_key_length |].
    split; [apply returned_key_length |].
    intros Hk Hpb Hsb Hn Hr Hp. right.
    exists (List.length (heap st)). cbn [fst snd].
    split; [reflexivity |]. rewrite buffer_new.
    split.
    + rewrite returned_key_whole by (rewrite keylen_of_small; lia).
      unfold derived_key, fully_valid_key, passlen_of, saltlen_of.
      fold (buffer_len st pb). fold (buffer_len st sb).
      unfold to_uint32, to_size_t.
      rewrite !Z.mod_small by (unfold buffer_len in *; lia).
      unfold buffer_len. rewrite !Nat2Z.id, !firstn_all.
      rewrite ?param_of_small, ?keylen_of_small by lia. reflexivity.
    + rewrite returned_key_length, keylen_of_small by lia.
      unfold to_uint32. apply Z.mod_small. lia.
  - left. exists e, st'. reflexivity.
Qed.

(** C4: two successful calls on the same password, salt, N, r, p and
    keylen return the same key, whatever the surroundings (allocator,
    content of fresh memory), the state they start in and the Buffers
    that carry the password and the salt. *)
Theorem scrypt_deterministic (E1 E2 : env) (st1 st2 st1' st2' : state)
  (pb1 sb1 pb2 sb2 : nat) (n r p k : Z) (rest1 rest2 : list value) (b1 b2 : nat) :
  buffer st1 pb1 = buffer st2 pb2 ->
  buffer st1 sb1 = buffer st2 sb2 ->
  scrypt E1 (args_scrypt pb1 sb1 n r p k rest1) st1 = (Ok (VBuffer b1), st1') ->
  scrypt E2 (args_scrypt pb2 sb2 n r p k rest2) st2 = (Ok (VBuffer b2), st2') ->
  buffer st1' b1 = buffer st2' b2.
Proof.
  intros Hp Hs H1 H2.
  apply scrypt_ok_inv in H1. destruct H1 as (_ & Hb1 & ->).
  apply scrypt_ok_inv in H2. destruct H2 as (_ & Hb2 & ->).
  injection Hb1 as ->. injection Hb2 as ->.
  rewrite !buffer_new.
  unfold returned_key, derived_key, passlen_of, saltlen_of.
  rewrite Hp, Hs. reflexivity.
Qed.

Lemma scrypt_deterministic_witness :
  buffer (snd (scrypt sample_env (args_scrypt 0 1 2 1 1 8 []) (start [password; NaCl]))) 2 =
  buffer (snd (scrypt noisy_env (args_scrypt 2 1 2 1 1 8 [VUndefined])
                 (mkState [Own [x00]; Own NaCl; Own password] 5 0 [Free 4]))) 3.
Proof.
  apply (scrypt_deterministic sample_env noisy_env
           (start [password; NaCl]) (mkState [Own [x00]; Own NaCl; Own password] 5 0 [Free 4])
           _ _ 0%nat 1%nat 2%nat 1%nat 2 1 1 8 [] [VUndefined] 2%nat 3%nat);
    vm_compute; reflexivity.
Defined.

(** C5, as stated, fails: a successful call that asks for 2^32 + 64
    bytes returns a Buffer of 64 bytes. *)
Lemma scrypt_key_shorter_than_requested :
  fst (scrypt sample_env (args_scrypt 0 1 2 1 1 (2 ^ 32 + 64) [])
         (start [password; NaCl])) = Ok (VBuffer 2) /\
  Z.of_nat (List.length
    (buffer (snd (scrypt sample_env (args_scrypt 0 1 2 1 1 (2 ^ 32 + 64) [])
                    (start [password; NaCl]))) 2)) = 64 /\
  Z.of_nat (List.length
    (buffer (snd (scrypt sample_env (args_scrypt 0 1 2 1 1 (2 ^ 32 + 64) [])
                    (start [password; NaCl]))) 2)) <> 2 ^ 32 + 64.
Proof.
  rewrite oversized_key_length.
  split; [rewrite oversized_key_returned; reflexivity |].
  split; [reflexivity | discriminate].
Qed.

(** C5, amended: the Buffer a successful call returns has exactly the
    requested number of bytes modulo 2^32 (the size of a new Buffer is
    a 32-bit value); that is the requested number itself for every
    keylen below 2^32, in particular 0, 1, 32, 64 and 1024, and fewer
    bytes than requested from 2^32 on. *)
Theorem scrypt_key_length (E : env) (pb sb : nat) (n r p k : Z) (rest : list value)
  (st st' : state) (b : nat) :
  scrypt E (args_scrypt pb sb n r p k rest) st = (Ok (VBuffer b), st') ->
  Z.of_nat (List.length (buffer st' b)) = to_uint32 (keylen_of k) /\
  (0 <= k < 2 ^ 32 -> Z.of_nat (List.length (buffer st' b)) = k) /\
  (2 ^ 32 <= k -> Z.of_nat (List.length (buffer st' b)) < k).
Proof.
  intros H.
  apply scrypt_ok_inv in H. destruct H as (_ & Hb & ->).
  injection Hb as ->.
  rewrite buffer_new, returned_key_length.
  split; [reflexivity |]. split.
  - intros Hk. rewrite keylen_of_small by lia.
    unfold to_uint32. apply Z.mod_small. lia.
  - intros Hk.
    pose proof (Z.mod_pos_bound (keylen_of k) (2 ^ 32)) as Hm.
    unfold to_uint32. lia.
Qed.

Lemma scrypt_key_length_witness :
  Z.of_nat (List.length
    (buffer (snd (scrypt sample_env (args_scrypt 0 1 2 1 1 64 [])
                    (start [password; NaCl]))) 2)) = 64.
Proof.
  destruct (scrypt_key_length sample_env 0 1 2 1 1 64 [] (start [password; NaCl])
              (snd (scrypt sample_env (args_scrypt 0 1 2 1 1 64 [])
                      (start [password; NaCl]))) 2) as (_ & H & _).
  - vm_compute. reflexivity.
  - apply H. lia.
Defined.

End ScryptClaims.

(** ** [random_fill]: claims C7, C8 and C9 *)
Module RandomFill.
Import Host Native Bcrypto Props Runtime.
Local Open Scope string_scope.
Local Open Scope Z_scope.

(** *** the mask test *)
Lemma land_bit31 (x : Z) : Z.land x 0x80000000 = 0 <-> Z.testbit x 31 = false.
Proof.
  change 0x80000000 with (2 ^ 31). split; intros H.
  - assert (Hb : Z.testbit (Z.land x (2 ^ 31)) 31 = false)
      by (rewrite H; apply Z.bits_0).
    rewrite Z.land_spec, Z.pow2_bits_true, andb_true_r in Hb by lia.
    exact Hb.
  - apply Z.bits_inj'. intros n Hn.
    rewrite Z.land_spec, Z.bits_0.
    destruct (Z.eq_dec n 31) as [-> | Hne].
    + rewrite H. reflexivity.
    + rewrite Z.pow2_bits_false by lia. apply andb_false_r.
Qed.

Lemma high_bit_testbit (x : Z) : high_bit x = Z.testbit x 31.
Proof.
  unfold high_bit.
  destruct (Z.testbit x 31) eqn:Hb.
  - destruct (Z.eqb_spec (Z.land x 0x80000000) 0) as [H0 | H0]; [| reflexivity].
    apply land_bit31 in H0. congruence.
  - apply land_bit31 in Hb. rewrite Hb. reflexivity.
Qed.

(** on a 32-bit value the high bit is set exactly from 2^31 on *)
Lemma high_bit_u32 (x : Z) : 0 <= x < 2 ^ 32 -> (high_bit x = true <-> 2 ^ 31 <= x).
Proof.
  intros Hx. rewrite high_bit_testbit, Z.testbit_true by lia.
  assert (Hq : 0 <= x / 2 ^ 31 < 2).
  { split; [apply Z.div_pos; lia | apply Z.div_lt_upper_bound; lia]. }
  assert (Hd : x = 2 ^ 31 * (x / 2 ^ 31) + x mod 2 ^ 31) by (apply Z.div_mod; lia).
  assert (Hm : 0 <= x mod 2 ^ 31 < 2 ^ 31) by (apply Z.mod_pos_bound; lia).
  split; intros H.
  - assert (x / 2 ^ 31 = 1).
    { assert (x / 2 ^ 31 = 0 \/ x / 2 ^ 31 = 1) as [H0 | H1] by lia;
        [rewrite H0 in H; discriminate H | exact H1]. }
    lia.
  - assert (x / 2 ^ 31 = 1) as -> by lia. reflexivity.
Qed.

Lemma high_bit_low (x : Z) : 0 <= x -> high_bit x = false -> x < 2 ^ 31 \/ 2 ^ 32 <= x.
Proof.
  intros H0 Hb.
  destruct (Z_lt_le_dec x (2 ^ 32)) as [Hlt | Hge]; [left | right; exact Hge].
  destruct (Z_lt_le_dec x (2 ^ 31)) as [H | H]; [exact H |].
  apply (high_bit_u32 x) in H; [congruence | lia].
Qed.

Lemma to_uint32_range (z : Z) : 0 <= to_uint32 z < 2 ^ 32.
Proof. unfold to_uint32. apply Z.mod_pos_bound. lia. Qed.

(** when no high bit is set the 32-bit sum [pos + size] does not wrap *)
Lemma sum_no_wrap (pos size : Z) :
  high_bit (to_uint32 pos) = false -> high_bit (to_uint32 size) = false ->
  to_uint32 (to_uint32 pos + to_uint32 size) = to_uint32 pos + to_uint32 size /\
  to_uint32 pos + to_uint32 size < 2 ^ 32.
Proof.
  intros Hp Hs.
  pose proof (to_uint32_range pos) as Rp. pose proof (to_uint32_range size) as Rs.
  apply high_bit_low in Hp; [| lia]. apply high_bit_low in Hs; [| lia].
  split; [| lia].
  unfold to_uint32 at 1. apply Z.mod_small. lia.
Qed.

(** *** the paths of [random_fill] *)
Lemma random_fill_invalid_range (E : env) (b : nat) (pos size : Z) (rest : list value)
  (st : state) :
  high_bit (buffer_len st b) || high_bit (to_uint32 pos) || high_bit (to_uint32 size)
    = true ->
  random_fill E (args_random b pos size rest) st =
  (Throw (mkExn Error "Invalid range."), st).
Proof.
  intros H. unfold random_fill, args_random. cbn [List.length Nat.ltb Nat.leb arg nth
    HasInstance IsNumber negb ref Uint32Value]. run. cbn [ref].
  fold (buffer_len st b). fold (to_uint32 pos). fold (to_uint32 size).
  rewrite H. reflexivity.
Qed.

Lemma random_fill_exceeds (E : env) (b : nat) (pos size : Z) (rest : list value)
  (st : state) :
  high_bit (buffer_len st b) || high_bit (to_uint32 pos) || high_bit (to_uint32 size)
    = false ->
  to_uint32 pos + to_uint32 size > buffer_len st b ->
  random_fill E (args_random b pos size rest) st =
  (Throw (mkExn Error "Size exceeds length."), st).
Proof.
  intros H Hgt. unfold random_fill, args_random. cbn [List.length Nat.ltb Nat.leb arg nth
    HasInstance IsNumber negb ref Uint32Value]. run. cbn [ref].
  fold (buffer_len st b). fold (to_uint32 pos). fold (to_uint32 size).
  rewrite H.
  apply orb_false_elim in H. destruct H as [H Hs].
  apply orb_false_elim in H. destruct H as [_ Hp].
  destruct (sum_no_wrap pos size Hp Hs) as [-> _].
  destruct (Z.gtb_spec (to_uint32 pos + to_uint32 size) (buffer_len st b)); [| lia].
  reflexivity.
Qed.

Lemma random_fill_no_entropy (E : env) (b : nat) (pos size : Z) (rest : list value)
  (st : state) :
  high_bit (buffer_len st b) || high_bit (to_uint32 pos) || high_bit (to_uint32 size)
    = false ->
  to_uint32 pos + to_uint32 size <= buffer_len st b ->
  entropy E = None ->
  random_fill E (args_random b pos size rest) st =
  (Throw (mkExn Error "Could not get random bytes."),
   mkState (heap st) (allocs st) (drawn st)
     (trace st ++ [Random b (to_uint32 pos) (to_uint32 size)])).
Proof.
  intros H Hle He. unfold random_fill, args_random. cbn [List.length Nat.ltb Nat.leb arg nth
    HasInstance IsNumber negb ref Uint32Value]. run. cbn [ref].
  fold (buffer_len st b). fold (to_uint32 pos). fold (to_uint32 size).
  rewrite H.
  apply orb_false_elim in H. destruct H as [H Hs].
  apply orb_false_elim in H. destruct H as [_ Hp].
  destruct (sum_no_wrap pos size Hp Hs) as [-> _].
  destruct (Z.gtb_spec (to_uint32 pos + to_uint32 size) (buffer_len st b)); [lia |].
  unfold bcrypto_random. run. rewrite He. reflexivity.
Qed.

Lemma random_fill_success (E : env) (b : nat) (pos size : Z) (rest : list value)
  (st : state) (src : nat -> byte) :
  high_bit (buffer_len st b) || high_bit (to_uint32 pos) || high_bit (to_uint32 size)
    = false ->
  to_uint32 pos + to_uint32 size <= buffer_len st b ->
  entropy E = Some src ->
  random_fill E (args_random b pos size rest) st =
  (Ok (VBuffer b),
   mkState
     (poke (heap st) b
        (filled (buffer st b) (to_uint32 pos) (draw src st (to_uint32 size))))
     (allocs st) (drawn st + Z.to_nat (to_uint32 size))
     (trace st ++ [Random b (to_uint32 pos) (to_uint32 size)])).
Proof.
  intros H Hle He. unfold random_fill, args_random. cbn [List.length Nat.ltb Nat.leb arg nth
    HasInstance IsNumber negb ref Uint32Value]. run. cbn [ref].
  fold (buffer_len st b). fold (to_uint32 pos). fold (to_uint32 size).
  rewrite H.
  apply orb_false_elim in H. destruct H as [H Hs].
  apply orb_false_elim in H. destruct H as [_ Hp].
  destruct (sum_no_wrap pos size Hp Hs) as [-> _].
  destruct (Z.gtb_spec (to_uint32 pos + to_uint32 size) (buffer_len st b)); [lia |].
  unfold bcrypto_random. run. rewrite He.
  cbn [heap allocs drawn trace fst snd negb].
  unfold filled, draw.
  rewrite length_map, length_seq, Z2Nat.id by apply to_uint32_range.
  reflexivity.
Qed.

End RandomFill.

Module RandomFillClaims.
Import Host Native Bcrypto Props Runtime RandomFill.
Local Open Scope string_scope.
Local Open Scope Z_scope.

Lemma new_events_app (h : list cell) (a n : nat) (st : state) (l : list event) :
  new_events st (mkState h a n (trace st ++ l)) = l.
Proof.
  unfold new_events. cbn [trace].
  rewrite skipn_app, skipn_all, Nat.sub_diag. reflexivity.
Qed.

Lemma new_events_same (st : state) : new_events st st = [].
Proof. unfold new_events. apply skipn_all. Qed.

(** what a write through Buffer [b] leaves in the Buffers *)
Lemma buffer_poke_same (st : state) (a n : nat) (t : list event) (b : nat)
  (d : list byte) :
  List.length d = List.length (buffer st b) ->
  buffer (mkState (poke (heap st) b d) a n t) b = d.
Proof. intros H. unfold buffer. cbn [heap]. apply view_poke_same. exact H. Qed.

Lemma buffer_poke_other (st : state) (a n : nat) (t : list event) (b b' : nat)
  (d : list byte) :
  base st b' <> base st b ->
  buffer (mkState (poke (heap st) b d) a n t) b' = buffer st b'.
Proof. intros H. unfold buffer. cbn [heap]. apply view_poke_other. exact H. Qed.

Lemma draw_length (src : nat -> byte) (st : state) (size : Z) :
  List.length (draw src st size) = Z.to_nat size.
Proof. unfold draw. rewrite length_map, length_seq. reflexivity. Qed.

(** a write inside the bounds keeps the length and everything outside
    the written range *)
Lemma filled_length (d fresh : list byte) (pos : Z) :
  0 <= pos -> pos + Z.of_nat (List.length fresh) <= Z.of_nat (List.length d) ->
  List.length (filled d pos fresh) = List.length d.
Proof.
  intros H0 H. unfold filled.
  rewrite !length_app, length_firstn, length_skipn. lia.
Qed.

Lemma filled_outside (d fresh : list byte) (pos : Z) (i : nat) :
  0 <= pos -> pos + Z.of_nat (List.length fresh) <= Z.of_nat (List.length d) ->
  Z.of_nat i < pos \/ pos + Z.of_nat (List.length fresh) <= Z.of_nat i ->
  nth_error (filled d pos fresh) i = nth_error d i.
Proof.
  intros H0 H Hi. unfold filled.
  assert (Hf : List.length (firstn (Z.to_nat pos) d) = Z.to_nat pos)
    by (rewrite length_firstn; lia).
  destruct Hi as [Hi | Hi].
  - rewrite nth_error_app1 by lia.
    rewrite nth_error_firstn.
    destruct (Nat.ltb_spec i (Z.to_nat pos)); [reflexivity | lia].
  - rewrite nth_error_app2 by lia.
    rewrite nth_error_app2 by lia.
    rewrite nth_error_skipn. f_equal. lia.
Qed.

Lemma high_bits_false (x y z : Z) :
  high_bit x || high_bit y || high_bit z = false ->
  high_bit x = false /\ high_bit y = false /\ high_bit z = false.
Proof.
  intros H. apply orb_false_elim in H. destruct H as [H Hz].
  apply orb_false_elim in H. destruct H as [Hx Hy]. auto.
Qed.




(** C8: after a successful [random_fill] the Buffer has its previous
    length, every byte at an index outside [pos, pos+size) has its
    previous value, and every Buffer over other memory is unchanged. *)
Theorem random_fill_frame (E : env) (b : nat) (pos size : Z) (rest : list value)
  (st st' : state) (v : value) :
  random_fill E (args_random b pos size rest) st = (Ok v, st') ->
  List.length (buffer st' b) = List.length (buffer st b) /\
  (forall i : nat,
     Z.of_nat i < to_uint32 pos \/ to_uint32 pos + to_uint32 size <= Z.of_nat i ->
     nth_error (buffer st' b) i = nth_error (buffer st b) i) /\
  (forall b' : nat, base st b' <> base st b -> buffer st' b' = buffer st b').
Proof.
  intros H.
  destruct (high_bit (buffer_len st b) || high_bit (to_uint32 pos)
            || high_bit (to_uint32 size)) eqn:Hh;
    [rewrite random_fill_invalid_range in H by exact Hh; discriminate H |].
  destruct (Z_gt_le_dec (to_uint32 pos + to_uint32 size) (buffer_len st b))
    as [Hgt | Hle];
    [rewrite random_fill_exceeds in H by assumption; discriminate H |].
  destruct (entropy E) as [src |] eqn:He;
    [| rewrite random_fill_no_entropy in H by assumption; discriminate H].
  rewrite (random_fill_success E b pos size rest st src) in H by assumption.
  injection H as _ <-.
  pose proof (to_uint32_range pos) as Rp. pose proof (to_uint32_range size) as Rs.
  unfold buffer_len in Hle.
  assert (Hfit : to_uint32 pos + Z.of_nat (List.length (draw src st (to_uint32 size)))
                 <= Z.of_nat (List.length (buffer st b)))
    by (rewrite draw_length; lia).
  assert (Hlen : List.length
                   (filled (buffer st b) (to_uint32 pos) (draw src st (to_uint32 size))) =
                 List.length (buffer st b))
    by (apply filled_length; [lia | exact Hfit]).
  split; [| split].
  - rewrite buffer_poke_same by exact Hlen. exact Hlen.
  - intros i Hi. rewrite buffer_poke_same by exact Hlen.
    apply filled_outside; [lia | exact Hfit |].
    rewrite draw_length. lia.
  - intros b' Hne. apply buffer_poke_other. exact Hne.
Qed.

Lemma random_fill_frame_witness :
  nth_error (buffer (snd (random_fill sample_env (args_random 0 1 2 [])
                            (start [[x0a; x0b; x0c; x0d]]))) 0) 3 =
  nth_error (buffer (start [[x0a; x0b; x0c; x0d]]) 0) 3.
Proof.
  destruct (random_fill_frame sample_env 0 1 2 [] (start [[x0a; x0b; x0c; x0d]])
              (snd (random_fill sample_env (args_random 0 1 2 [])
                      (start [[x0a; x0b; x0c; x0d]])))
              (VBuffer 0)) as (_ & H & _).
  - vm_compute. reflexivity.
  - apply (H 3%nat). right. vm_compute. discriminate.
Defined.

(** C9: if bit 31 of the Buffer length, of the position or of the size
    is set (for the 32-bit position and size: if the value is at least
    2^31, and likewise for a length below 2^32) the call fails with
    "Invalid range." and changes nothing; and whenever the random
    source is called on the Buffer, it is at the given position and
    size, the 32-bit sum position + size has not wrapped around, and
    the range lies inside the Buffer. *)
Theorem random_fill_range_guard (E : env) (b : nat) (pos size : Z) (rest : list value)
  (st : state) :
  (high_bit (buffer_len st b) = true \/ 2 ^ 31 <= to_uint32 pos \/
   2 ^ 31 <= to_uint32 size ->
   random_fill E (args_random b pos size rest) st =
     (Throw (mkExn Error "Invalid range."), st)) /\
  (2 ^ 31 <= buffer_len st b < 2 ^ 32 -> high_bit (buffer_len st b) = true) /\
  (forall b' off n,
     In (Random b' off n)
        (new_events st (snd (random_fill E (args_random b pos size rest) st))) ->
     b' = b /\ off = to_uint32 pos /\ n = to_uint32 size /\
     to_uint32 (off + n) = off + n /\ off + n < 2 ^ 32 /\
     0 <= off /\ 0 <= n /\ off + n <= buffer_len st b).
Proof.
  pose proof (to_uint32_range pos) as Rp. pose proof (to_uint32_range size) as Rs.
  split; [| split].
  - intros H. apply random_fill_invalid_range.
    destruct H as [H | [H | H]].
    + rewrite H. reflexivity.
    + apply (high_bit_u32 _ Rp) in H. rewrite H. apply orb_true_iff. left.
      apply orb_true_r.
    + apply (high_bit_u32 _ Rs) in H. rewrite H. apply orb_true_r.
  - intros H. apply high_bit_u32; lia.
  - intros b' off n Hin.
    destruct (high_bit (buffer_len st b) || high_bit (to_uint32 pos)
              || high_bit (to_uint32 size)) eqn:Hh.
    { rewrite random_fill_invalid_range in Hin by exact Hh.
      cbn [snd] in Hin. rewrite new_events_same in Hin. destruct Hin. }
    destruct (Z_gt_le_dec (to_uint32 pos + to_uint32 size) (buffer_len st b))
      as [Hgt | Hle].
    { rewrite random_fill_exceeds in Hin by assumption.
      cbn [snd] in Hin. rewrite new_events_same in Hin. destruct Hin. }
    destruct (high_bits_false _ _ _ Hh) as (_ & Hp & Hs).
    destruct (sum_no_wrap pos size Hp Hs) as [Hw Hlt].
    assert (Hev : new_events st
                    (snd (random_fill E (args_random b pos size rest) st)) =
                  [Random b (to_uint32 pos) (to_uint32 size)]).
    { destruct (entropy E) as [src |] eqn:He.
      - rewrite (random_fill_success E b pos size rest st src) by assumption.
        cbn [snd]. apply new_events_app.
      - rewrite random_fill_no_entropy by assumption.
        cbn [snd]. apply new_events_app. }
    rewrite Hev in Hin. destruct Hin as [Hin | []].
    injection Hin as <- <- <-.
    repeat split; try lia; try exact Hw.
Qed.

Lemma random_fill_range_guard_witness :
  random_fill sample_env (args_random 0 (2 ^ 31) 0 []) (start [[x00; x00; x00; x00]]) =
  (Throw (mkExn Error "Invalid range."), start [[x00; x00; x00; x00]]).
Proof.
  destruct (random_fill_range_guard sample_env 0 (2 ^ 31) 0 []
              (start [[x00; x00; x00; x00]])) as (H & _ & _).
  apply H. right. left. vm_compute. discriminate.
Defined.

End RandomFillClaims.

(** ** [encipher] and [decipher]: claim C10 *)
Module CipherClaims.
Import Host Native Bcrypto Props Runtime.
Local Open Scope string_scope.
Local Open Scope Z_scope.

Ltac enter_cipher :=
  unfold encipher, decipher, args_cipher;
  cbn [List.length Nat.ltb Nat.leb arg nth HasInstance negb ref];
  run; cbn [ref].

Lemma encipher_bad_key (E : env) (d k iv : nat) (rest : list value) (st : state) :
  buffer_len st k <> 32 ->
  encipher E (args_cipher d k iv rest) st = (Throw (mkExn Error "Bad key size."), st).
Proof.
  intros H. enter_cipher. fold (buffer_len st k).
  destruct (Z.eqb_spec (buffer_len st k) 32); [contradiction | reflexivity].
Qed.

Lemma decipher_bad_key (E : env) (d k iv : nat) (rest : list value) (st : state) :
  buffer_len st k <> 32 ->
  decipher E (args_cipher d k iv rest) st = (Throw (mkExn Error "Bad key size."), st).
Proof.
  intros H. enter_cipher. fold (buffer_len st k).
  destruct (Z.eqb_spec (buffer_len st k) 32); [contradiction | reflexivity].
Qed.

Lemma encipher_bad_iv (E : env) (d k iv : nat) (rest : list value) (st : state) :
  buffer_len st k = 32 -> buffer_len st iv <> 16 ->
  encipher E (args_cipher d k iv rest) st = (Throw (mkExn Error "Bad IV size."), st).
Proof.
  intros Hk H. enter_cipher. fold (buffer_len st k). fold (buffer_len st iv).
  rewrite Hk. cbn [Z.eqb Pos.eqb negb].
  destruct (Z.eqb_spec (buffer_len st iv) 16); [contradiction | reflexivity].
Qed.

Lemma decipher_bad_iv (E : env) (d k iv : nat) (rest : list value) (st : state) :
  buffer_len st k = 32 -> buffer_len st iv <> 16 ->
  decipher E (args_cipher d k iv rest) st = (Throw (mkExn Error "Bad IV size."), st).
Proof.
  intros Hk H. enter_cipher. fold (buffer_len st k). fold (buffer_len st iv).
  rewrite Hk. cbn [Z.eqb Pos.eqb negb].
  destruct (Z.eqb_spec (buffer_len st iv) 16); [contradiction | reflexivity].
Qed.

(** C10, as stated, fails: with a key of 0 bytes and an IV of 0 bytes
    the IV is not 16 bytes long, yet the error is "Bad key size.", not
    "Bad IV size.": the key is checked first. *)
Lemma bad_key_hides_bad_iv :
  buffer_len (start [[]; []; []]) 2 <> 16 /\
  encipher sample_env (args_cipher 0 1 2 []) (start [[]; []; []]) <>
    (Throw (mkExn Error "Bad IV size."), start [[]; []; []]) /\
  decipher sample_env (args_cipher 0 1 2 []) (start [[]; []; []]) <>
    (Throw (mkExn Error "Bad IV size."), start [[]; []; []]).
Proof.
  split; [discriminate |].
  rewrite encipher_bad_key, decipher_bad_key by discriminate.
  split; discriminate.
Qed.

(** C10, amended: given three Buffers, [encipher] and [decipher] fail
    with "Bad key size." whenever the key is not exactly 32 bytes long,
    and with "Bad IV size." whenever the key is 32 bytes long and the IV
    is not exactly 16 bytes long; in both cases the state is unchanged:
    no output buffer has been allocated and the cipher has not run. *)
Theorem cipher_size_checks (E : env) (d k iv : nat) (rest : list value) (st : state) :
  (buffer_len st k <> 32 ->
   encipher E (args_cipher d k iv rest) st =
     (Throw (mkExn Error "Bad key size."), st) /\
   decipher E (args_cipher d k iv rest) st =
     (Throw (mkExn Error "Bad key size."), st)) /\
  (buffer_len st k = 32 -> buffer_len st iv <> 16 ->
   encipher E (args_cipher d k iv rest) st =
     (Throw (mkExn Error "Bad IV size."), st) /\
   decipher E (args_cipher d k iv rest) st =
     (Throw (mkExn Error "Bad IV size."), st)).
Proof.
  split.
  - intros H. split; [apply encipher_bad_key | apply decipher_bad_key]; exact H.
  - intros Hk H. split; [apply encipher_bad_iv | apply decipher_bad_iv]; assumption.
Qed.

Lemma cipher_size_checks_witness :
  encipher sample_env (args_cipher 0 1 2 [])
    (start [[]; repeat x00 32; repeat x00 12]) =
    (Throw (mkExn Error "Bad IV size."), start [[]; repeat x00 32; repeat x00 12]) /\
  decipher sample_env (args_cipher 0 1 2 [])
    (start [[]; repeat x00 32; repeat x00 12]) =
    (Throw (mkExn Error "Bad IV size."), start [[]; repeat x00 32; repeat x00 12]).
Proof.
  destruct (cipher_size_checks sample_env 0 1 2 []
              (start [[]; repeat x00 32; repeat x00 12])) as [_ H].
  apply H.
  - reflexivity.
  - discriminate.
Defined.

End CipherClaims.

(** ** Failing dependencies: claim C6 *)
Module DependencyClaims.
Import Host Native Bcrypto Props Runtime RandomFill.
Local Open Scope string_scope.
Local Open Scope Z_scope.

Lemma pbkdf2_unknown_digest (E : env) (name : string) (kb sb : nat) (iter keylen : Z)
  (rest : list value) (st : state) :
  EVP_get_digestbyname E name = None ->
  malloc_ok E (allocs st) (to_uint32 keylen) = true ->
  pbkdf2 E (args_pbkdf2 name kb sb iter keylen rest) st =
  (Throw (mkExn Error "PBKDF2 failed."),
   mkState (heap st) (S (allocs st)) (drawn st)
     (trace st ++ [Malloc (allocs st) (to_uint32 keylen) true; Free (allocs st)])).
Proof.
  intros Hd Hm. unfold pbkdf2, args_pbkdf2.
  cbn [List.length Nat.ltb Nat.leb arg nth HasInstance IsString IsNumber negb ref
       Uint32Value Utf8String].
  run. cbn [ref]. fold (to_uint32 keylen). rewrite Hm.
  unfold bcrypto_pbkdf2. rewrite Hd. run.
  rewrite <- app_assoc. reflexivity.
Qed.

Lemma pbkdf2_async_unknown_digest (E : env) (name : string) (kb sb : nat)
  (iter keylen : Z) (callback : nat) (rest : list value) (st : state) :
  EVP_get_digestbyname E name = None ->
  pbkdf2_async E (args_pbkdf2_async name kb sb iter keylen callback rest) st =
  (Throw (mkExn TypeError "Could not allocate context."), st).
Proof.
  intros Hd. unfold pbkdf2_async, args_pbkdf2_async.
  cbn [List.length Nat.ltb Nat.leb arg nth HasInstance IsString IsNumber IsFunction
       negb ref Uint32Value Utf8String].
  rewrite Hd. reflexivity.
Qed.

(** C6, as stated, fails: for the same failure of the digest lookup
    (the name "whirlpool" is not registered) [pbkdf2] throws the Error
    "PBKDF2 failed." and [pbkdf2_async] the TypeError "Could not
    allocate context.": there is no error of the dependency that both
    hand to the caller unchanged; each method reports a fixed message of
    its own. *)
Lemma digest_failure_rewritten :
  EVP_get_digestbyname sample_env "whirlpool" = None /\
  ~ (exists d : exception,
       reports (pbkdf2 sample_env (args_pbkdf2 "whirlpool" 0 1 1 32 [])
                  (start [password; NaCl])) d /\
       reports (pbkdf2_async sample_env (args_pbkdf2_async "whirlpool" 0 1 1 32 0 [])
                  (start [password; NaCl])) d).
Proof.
  split; [reflexivity |].
  intros [d [H1 H2]]. unfold reports in H1, H2.
  rewrite pbkdf2_unknown_digest in H1 by reflexivity.
  rewrite pbkdf2_async_unknown_digest in H2 by reflexivity.
  cbn [fst] in H1, H2. congruence.
Qed.

(** C6, amended: when a dependency fails, the method throws a fixed
    error of its own and returns no value.  If the digest name is not
    registered, [pbkdf2] (its key buffer granted) releases the key buffer
    and throws the Error "PBKDF2 failed.", and [pbkdf2_async] throws the
    TypeError "Could not allocate context." before anything is queued;
    if the entropy source is unavailable, [random_fill] (its range
    accepted) throws the Error "Could not get random bytes.". *)
Theorem dependency_failure_reported (E : env) (st : state) :
  (forall name kb sb iter keylen rest,
     EVP_get_digestbyname E name = None ->
     malloc_ok E (allocs st) (to_uint32 keylen) = true ->
     pbkdf2 E (args_pbkdf2 name kb sb iter keylen rest) st =
       (Throw (mkExn Error "PBKDF2 failed."),
        mkState (heap st) (S (allocs st)) (drawn st)
          (trace st ++ [Malloc (allocs st) (to_uint32 keylen) true;
                        Free (allocs st)]))) /\
  (forall name kb sb iter keylen callback rest,
     EVP_get_digestbyname E name = None ->
     pbkdf2_async E (args_pbkdf2_async name kb sb iter keylen callback rest) st =
       (Throw (mkExn TypeError "Could not allocate context."), st)) /\
  (forall b pos size rest,
     entropy E = None ->
     ~ bad_range st b (to_uint32 pos) (to_uint32 size) ->
     random_fill E (args_random b pos size rest) st =
       (Throw (mkExn Error "Could not get random bytes."),
        mkState (heap st) (allocs st) (drawn st)
          (trace st ++ [Random b (to_uint32 pos) (to_uint32 size)]))).
Proof.
  split; [| split].
  - intros. apply pbkdf2_unknown_digest; assumption.
  - intros. apply pbkdf2_async_unknown_digest; assumption.
  - intros b pos size rest He Hr. unfold bad_range in Hr.
    apply random_fill_no_entropy; [| | exact He].
    + destruct (high_bit (buffer_len st b) || high_bit (to_uint32 pos)
                || high_bit (to_uint32 size)); [exfalso; apply Hr; left |]; reflexivity.
    + destruct (Z_gt_le_dec (to_uint32 pos + to_uint32 size) (buffer_len st b));
        [exfalso; apply Hr; right; assumption | assumption].
Qed.

Lemma dependency_failure_reported_witness :
  pbkdf2 sample_env (args_pbkdf2 "whirlpool" 0 1 1 32 []) (start [password; NaCl]) =
    (Throw (mkExn Error "PBKDF2 failed."),
     mkState [Own password; Own NaCl] 1 0 [Malloc 0 32 true; Free 0]) /\
  random_fill dry_env (args_random 0 1 2 []) (start [password; NaCl]) =
    (Throw (mkExn Error "Could not get random bytes."),
     mkState [Own password; Own NaCl] 0 0 [Random 0 1 2]).
Proof.
  destruct (dependency_failure_reported sample_env (start [password; NaCl]))
    as (H1 & _ & _).
  destruct (dependency_failure_reported dry_env (start [password; NaCl]))
    as (_ & _ & H3).
  split.
  - apply (H1 "whirlpool" 0%nat 1%nat 1 32 []); reflexivity.
  - apply (H3 0%nat 1 2 []); [reflexivity |].
    intros [Habs | Habs]; [discriminate Habs | vm_compute in Habs; discriminate Habs].
Defined.

End DependencyClaims.

(** ** The paths of the remaining methods *)
Module Paths.
Import Host Native Bcrypto Props MoreProps Runtime.
Local Open Scope string_scope.
Local Open Scope Z_scope.

Ltac enter :=
  cbn [List.length Nat.ltb Nat.leb arg nth HasInstance IsString IsNumber IsFunction
       negb ref Uint32Value Utf8String];
  run; cbn [ref].

Lemma firstn_write_into (blk src : list byte) :
  (List.length src <= List.length blk)%nat ->
  firstn (List.length src) (write_into blk src) = src.
Proof.
  intros H. unfold write_into.
  rewrite firstn_firstn, Nat.min_l by exact H.
  rewrite firstn_app, firstn_all, Nat.sub_diag. cbn [firstn].
  apply app_nil_r.
Qed.

Lemma firstn_write_into_block (blk src : list byte) :
  firstn (List.length blk) (write_into blk src) = write_into blk src.
Proof.
  rewrite <- (write_into_length blk src) at 1. apply firstn_all.
Qed.

Lemma to_uint32_idem (z : Z) : to_uint32 (to_uint32 z) = to_uint32 z.
Proof. unfold to_uint32. apply Z.mod_mod. lia. Qed.

(** *** [pbkdf2] *)
Lemma pbkdf2_key_refused (E : env) (name : string) (kb sb : nat) (iter keylen : Z)
  (rest : list value) (st : state) :
  malloc_ok E (allocs st) (to_uint32 keylen) = false ->
  pbkdf2 E (args_pbkdf2 name kb sb iter keylen rest) st =
  (Throw (mkExn Error "Could not allocate key."),
   mkState (heap st) (S (allocs st)) (drawn st)
     (trace st ++ [Malloc (allocs st) (to_uint32 keylen) false])).
Proof.
  intros Hm. unfold pbkdf2, args_pbkdf2. enter.
  fold (to_uint32 keylen). rewrite Hm. reflexivity.
Qed.

Lemma pbkdf2_success (E : env) (name : string) (kb sb : nat) (iter keylen : Z)
  (rest : list value) (st : state) (md : PRF.EVP_MD) :
  malloc_ok E (allocs st) (to_uint32 keylen) = true ->
  EVP_get_digestbyname E name = Some md ->
  pbkdf2 E (args_pbkdf2 name kb sb iter keylen rest) st =
  (Ok (VBuffer (List.length (heap st))),
   mkState
     (heap st ++
      [Own (write_into (map (garbage E) (seq 0 (Z.to_nat (to_uint32 keylen))))
              (pbkdf2_key md st kb sb iter keylen))])
     (S (allocs st)) (drawn st)
     (trace st ++ [Malloc (allocs st) (to_uint32 keylen) true;
                   Prf (to_uint32 keylen)])).
Proof.
  intros Hm Hd. unfold pbkdf2, args_pbkdf2. enter.
  fold (to_uint32 keylen). fold (to_uint32 iter). rewrite Hm.
  unfold bcrypto_pbkdf2. rewrite Hd. run.
  fold (buffer_len st kb). fold (buffer_len st sb).
  fold (pbkdf2_key md st kb sb iter keylen).
  fold (to_uint32 (to_uint32 keylen)). rewrite to_uint32_idem.
  rewrite <- (fresh_block_length E (to_uint32 keylen)) at 1.
  rewrite firstn_write_into_block.
  rewrite <- app_assoc. reflexivity.
Qed.

(** *** [pbkdf2_async] and [scrypt_async] *)
Lemma pbkdf2_async_queued (E : env) (name : string) (kb sb : nat) (iter keylen : Z)
  (callback : nat) (rest : list value) (st : state) (md : PRF.EVP_MD) :
  EVP_get_digestbyname E name = Some md ->
  pbkdf2_async E (args_pbkdf2_async name kb sb iter keylen callback rest) st =
  (Ok VUndefined,
   mkState (heap st) (allocs st) (drawn st)
     (trace st ++
      [Queue (PBKDF2Work md (VBuffer kb) (VBuffer sb)
                (to_uint32 (buffer_len st kb))
                (to_uint32 (to_size_t (buffer_len st sb)))
                (to_uint32 iter) (to_uint32 keylen) (VFunction callback))])).
Proof.
  intros Hd. unfold pbkdf2_async, args_pbkdf2_async.
  cbn [List.length Nat.ltb Nat.leb arg nth HasInstance IsString IsNumber IsFunction
       negb ref Uint32Value Utf8String].
  rewrite Hd. reflexivity.
Qed.

Lemma scrypt_async_queued (pb sb : nat) (n r p k : Z) (callback : nat)
  (rest : list value) (st : state) :
  scrypt_async (args_scrypt_async pb sb n r p k callback rest) st =
  (Ok VUndefined,
   mkState (heap st) (allocs st) (drawn st)
     (trace st ++
      [Queue (ScryptWork (VBuffer pb) (VBuffer sb) (passlen_of st pb) (saltlen_of st sb)
                (param_of n) (param_of r) (param_of p) (keylen_of k)
                (VFunction callback))])).
Proof. reflexivity. Qed.

(** *** [cleanse] *)
Lemma cleanse_run (b : nat) (rest : list value) (st : state) :
  cleanse (args_cleanse b rest) st =
  (Ok VUndefined,
   mkState (poke (heap st) b (repeat x00 (List.length (buffer st b))))
     (allocs st) (drawn st) (trace st ++ [Cleanse b])).
Proof.
  unfold cleanse, args_cleanse. enter. rewrite Nat2Z.id. reflexivity.
Qed.

(** *** [encipher] and [decipher], past the size checks *)
Lemma encipher_refused (E : env) (d k iv : nat) (rest : list value) (st : state) :
  buffer_len st k = 32 -> buffer_len st iv = 16 ->
  malloc_ok E (allocs st) (encipher_olen E st d) = false ->
  encipher E (args_cipher d k iv rest) st =
  (Throw (mkExn Error "Could not allocate ciphertext."),
   mkState (heap st) (S (allocs st)) (drawn st)
     (trace st ++ [Malloc (allocs st) (encipher_olen E st d) false])).
Proof.
  intros Hk Hi Hm. unfold encipher, args_cipher. enter.
  fold (buffer_len st k). fold (buffer_len st iv). fold (buffer_len st d).
  rewrite Hk, Hi. cbn [Z.eqb Pos.eqb negb]. run.
  fold (encipher_olen E st d). rewrite Hm. reflexivity.
Qed.

Lemma encipher_failed (E : env) (d k iv : nat) (rest : list value) (st : state) :
  buffer_len st k = 32 -> buffer_len st iv = 16 ->
  malloc_ok E (allocs st) (encipher_olen E st d) = true ->
  bcrypto_encipher E (buffer st d) (buffer st k) (buffer st iv) = None ->
  encipher E (args_cipher d k iv rest) st =
  (Throw (mkExn Error "Encipher failed."),
   mkState (heap st) (S (allocs st)) (drawn st)
     (trace st ++ [Malloc (allocs st) (encipher_olen E st d) true; Cipher false;
                   Free (allocs st)])).
Proof.
  intros Hk Hi Hm Hc. unfold encipher, args_cipher. enter.
  fold (buffer_len st k). fold (buffer_len st iv). fold (buffer_len st d).
  rewrite Hk, Hi. cbn [Z.eqb Pos.eqb negb]. run.
  fold (encipher_olen E st d). rewrite Hm. run. rewrite Hc. run.
  rewrite <- !app_assoc. reflexivity.
Qed.

Lemma encipher_done (E : env) (d k iv : nat) (rest : list value) (st : state)
  (ct : list byte) :
  buffer_len st k = 32 -> buffer_len st iv = 16 ->
  malloc_ok E (allocs st) (encipher_olen E st d) = true ->
  bcrypto_encipher E (buffer st d) (buffer st k) (buffer st iv) = Some ct ->
  encipher E (args_cipher d k iv rest) st =
  (Ok (VBuffer (List.length (heap st))),
   mkState
     (heap st ++
      [Own (firstn (Z.to_nat (to_uint32 (Z.of_nat (List.length ct))))
              (write_into (map (garbage E) (seq 0 (Z.to_nat (encipher_olen E st d)))) ct))])
     (S (allocs st)) (drawn st)
     (trace st ++ [Malloc (allocs st) (encipher_olen E st d) true; Cipher false])).
Proof.
  intros Hk Hi Hm Hc. unfold encipher, args_cipher. enter.
  fold (buffer_len st k). fold (buffer_len st iv). fold (buffer_len st d).
  rewrite Hk, Hi. cbn [Z.eqb Pos.eqb negb]. run.
  fold (encipher_olen E st d). rewrite Hm. run. rewrite Hc. run.
  rewrite <- !app_assoc. reflexivity.
Qed.

Lemma decipher_refused (E : env) (d k iv : nat) (rest : list value) (st : state) :
  buffer_len st k = 32 -> buffer_len st iv = 16 ->
  malloc_ok E (allocs st) (decipher_olen E st d) = false ->
  decipher E (args_cipher d k iv rest) st =
  (Throw (mkExn Error "Could not allocate plaintext."),
   mkState (heap st) (S (allocs st)) (drawn st)
     (trace st ++ [Malloc (allocs st) (decipher_olen E st d) false])).
Proof.
  intros Hk Hi Hm. unfold decipher, args_cipher. enter.
  fold (buffer_len st k). fold (buffer_len st iv). fold (buffer_len st d).
  rewrite Hk, Hi. cbn [Z.eqb Pos.eqb negb]. run.
  fold (decipher_olen E st d). rewrite Hm. reflexivity.
Qed.

Lemma decipher_failed (E : env) (d k iv : nat) (rest : list value) (st : state) :
  buffer_len st k = 32 -> buffer_len st iv = 16 ->
  malloc_ok E (allocs st) (decipher_olen E st d) = true ->
  bcrypto_decipher E (buffer st d) (buffer st k) (buffer st iv) = None ->
  decipher E (args_cipher d k iv rest) st =
  (Throw (mkExn Error "Decipher failed."),
   mkState (heap st) (S (allocs st)) (drawn st)
     (trace st ++ [Malloc (allocs st) (decipher_olen E st d) true; Cipher true;
                   Free (allocs st)])).
Proof.
  intros Hk Hi Hm Hc. unfold decipher, args_cipher. enter.
  fold (buffer_len st k). fold (buffer_len st iv). fold (buffer_len st d).
  rewrite Hk, Hi. cbn [Z.eqb Pos.eqb negb]. run.
  fold (decipher_olen E st d). rewrite Hm. run. rewrite Hc. run.
  rewrite <- !app_assoc. reflexivity.
Qed.

Lemma decipher_done (E : env) (d k iv : nat) (rest : list value) (st : state)
  (pt : list byte) :
  buffer_len st k = 32 -> buffer_len st iv = 16 ->
  malloc_ok E (allocs st) (decipher_olen E st d) = true ->
  bcrypto_decipher E (buffer st d) (buffer st k) (buffer st iv) = Some pt ->
  decipher E (args_cipher d k iv rest) st =
  (Ok (VBuffer (List.length (heap st))),
   mkState
     (heap st ++
      [Own (firstn (Z.to_nat (to_uint32 (Z.of_nat (List.length pt))))
              (write_into (map (garbage E) (seq 0 (Z.to_nat (decipher_olen E st d)))) pt))])
     (S (allocs st)) (drawn st)
     (trace st ++ [Malloc (allocs st) (decipher_olen E st d) true; Cipher true])).
Proof.
  intros Hk Hi Hm Hc. unfold decipher, args_cipher. enter.
  fold (buffer_len st k). fold (buffer_len st iv). fold (buffer_len st d).
  rewrite Hk, Hi. cbn [Z.eqb Pos.eqb negb]. run.
  fold (decipher_olen E st d). rewrite Hm. run. rewrite Hc. run.
  rewrite <- !app_assoc. reflexivity.
Qed.

End Paths.

(** ** Rejected arguments *)
Module Shapes.
Import Host Native Bcrypto Props MoreProps Runtime.
Local Open Scope string_scope.
Local Open Scope Z_scope.

(** a call is rejected: it throws, for a wrong type or for missing
    arguments, in the state it was made in *)
Ltac reject :=
  left; eexists; split;
  [ reflexivity | first [ left; reflexivity | right; cbn [List.length]; lia ] ].

Lemma pbkdf2_shape (E : env) (info : list value) (st : state) :
  (exists e, pbkdf2 E info st = (Throw e, st) /\
             (exn_kind e = TypeError \/ (List.length info < 5)%nat)) \/
  (exists name kb sb iter keylen rest, info = args_pbkdf2 name kb sb iter keylen rest).
Proof.
  destruct info as [| a0 [| a1 [| a2 [| a3 [| a4 rest]]]]]; try reject.
  destruct a0 as [| name | | |]; try reject.
  destruct a1 as [| | | kb |]; try reject.
  destruct a2 as [| | | sb |]; try reject.
  destruct a3 as [| | iter | |]; try reject.
  destruct a4 as [| | keylen | |]; try reject.
  right. exists name, kb, sb, iter, keylen, rest. reflexivity.
Qed.

Lemma pbkdf2_async_shape (E : env) (info : list value) (st : state) :
  (exists e, pbkdf2_async E info st = (Throw e, st) /\
             (exn_kind e = TypeError \/ (List.length info < 6)%nat)) \/
  (exists name kb sb iter keylen callback rest,
     info = args_pbkdf2_async name kb sb iter keylen callback rest).
Proof.
  destruct info as [| a0 [| a1 [| a2 [| a3 [| a4 [| a5 rest]]]]]]; try reject.
  destruct a0 as [| name | | |]; try reject.
  destruct a1 as [| | | kb |]; try reject.
  destruct a2 as [| | | sb |]; try reject.
  destruct a3 as [| | iter | |]; try reject.
  destruct a4 as [| | keylen | |]; try reject.
  destruct a5 as [| | | | callback]; try reject.
  right. exists name, kb, sb, iter, keylen, callback, rest. reflexivity.
Qed.

Lemma scrypt_shape (E : env) (info : list value) (st : state) :
  (exists e, scrypt E info st = (Throw e, st) /\
             (exn_kind e = TypeError \/ (List.length info < 6)%nat)) \/
  (exists pb sb n r p k rest, info = args_scrypt pb sb n r p k rest).
Proof.
  destruct info as [| a0 [| a1 [| a2 [| a3 [| a4 [| a5 rest]]]]]]; try reject.
  destruct a0 as [| | | pb |]; try reject.
  destruct a1 as [| | | sb |]; try reject.
  destruct a2 as [| | n | |]; try reject.
  destruct a3 as [| | r | |]; try reject.
  destruct a4 as [| | p | |]; try reject.
  destruct a5 as [| | k | |]; try reject.
  right. exists pb, sb, n, r, p, k, rest. reflexivity.
Qed.

Lemma scrypt_async_shape (info : list value) (st : state) :
  (exists e, scrypt_async info st = (Throw e, st) /\
             (exn_kind e = TypeError \/ (List.length info < 6)%nat)) \/
  (exists pb sb n r p k callback rest,
     info = args_scrypt_async pb sb n r p k callback rest).
Proof.
  destruct info as [| a0 [| a1 [| a2 [| a3 [| a4 [| a5 rest]]]]]]; try reject.
  destruct a0 as [| | | pb |]; try reject.
  destruct a1 as [| | | sb |]; try reject.
  destruct a2 as [| | n | |]; try reject.
  destruct a3 as [| | r | |]; try reject.
  destruct a4 as [| | p | |]; try reject.
  destruct a5 as [| | k | |]; try reject.
  destruct rest as [| a6 rest]; try reject.
  destruct a6 as [| | | | callback]; try reject.
  right. exists pb, sb, n, r, p, k, callback, rest. reflexivity.
Qed.

Lemma cleanse_shape (info : list value) (st : state) :
  (exists e, cleanse info st = (Throw e, st) /\
             (exn_kind e = TypeError \/ (List.length info < 1)%nat)) \/
  (exists b rest, info = args_cleanse b rest).
Proof.
  destruct info as [| a0 rest]; try reject.
  destruct a0 as [| | | b |]; try reject.
  right. exists b, rest. reflexivity.
Qed.

Lemma encipher_shape (E : env) (info : list value) (st : state) :
  (exists e, encipher E info st = (Throw e, st) /\
             (exn_kind e = TypeError \/ (List.length info < 3)%nat)) \/
  (exists d k iv rest, info = args_cipher d k iv rest).
Proof.
  destruct info as [| a0 [| a1 [| a2 rest]]]; try reject.
  destruct a0 as [| | | d |]; try reject.
  destruct a1 as [| | | k |]; try reject.
  destruct a2 as [| | | iv |]; try reject.
  right. exists d, k, iv, rest. reflexivity.
Qed.

Lemma decipher_shape (E : env) (info : list value) (st : state) :
  (exists e, decipher E info st = (Throw e, st) /\
             (exn_kind e = TypeError \/ (List.length info < 3)%nat)) \/
  (exists d k iv rest, info = args_cipher d k iv rest).
Proof.
  destruct info as [| a0 [| a1 [| a2 rest]]]; try reject.
  destruct a0 as [| | | d |]; try reject.
  destruct a1 as [| | | k |]; try reject.
  destruct a2 as [| | | iv |]; try reject.
  right. exists d, k, iv, rest. reflexivity.
Qed.

Lemma random_fill_shape (E : env) (info : list value) (st : state) :
  (exists e, random_fill E info st = (Throw e, st) /\
             (exn_kind e = TypeError \/ (List.length info < 3)%nat)) \/
  (exists b pos size rest, info = args_random b pos size rest).
Proof.
  destruct info as [| a0 [| a1 [| a2 rest]]]; try reject.
  destruct a0 as [| | | b |]; try reject.
  destruct a1 as [| | pos | |]; try reject.
  destruct a2 as [| | size | |]; try reject.
  right. exists b, pos, size, rest. reflexivity.
Qed.

End Shapes.

(** ** What the allocating methods can do, on well-typed arguments *)
Module Cases.
Import Host Native Bcrypto Props MoreProps Runtime Paths.
Local Open Scope string_scope.
Local Open Scope Z_scope.

Lemma pbkdf2_cases (E : env) (name : string) (kb sb : nat) (iter keylen : Z)
  (rest : list value) (st : state) :
  exists res h evs,
    pbkdf2 E (args_pbkdf2 name kb sb iter keylen rest) st =
      (res, mkState h (S (allocs st)) (drawn st) (trace st ++ evs)) /\
    ((exists e, res = Throw e /\ exn_kind e = Error /\ h = heap st /\
                (evs = [Malloc (allocs st) (to_uint32 keylen) false] \/
                 evs = [Malloc (allocs st) (to_uint32 keylen) true; Free (allocs st)])) \/
     (exists md,
        EVP_get_digestbyname E name = Some md /\
        malloc_ok E (allocs st) (to_uint32 keylen) = true /\
        res = Ok (VBuffer (List.length (heap st))) /\
        h = (heap st ++
             [Own (write_into (map (garbage E) (seq 0 (Z.to_nat (to_uint32 keylen))))
                     (pbkdf2_key md st kb sb iter keylen))])%list /\
        evs = [Malloc (allocs st) (to_uint32 keylen) true; Prf (to_uint32 keylen)])).
Proof.
  destruct (malloc_ok E (allocs st) (to_uint32 keylen)) eqn:Hm.
  - destruct (EVP_get_digestbyname E name) as [md |] eqn:Hd.
    + rewrite (pbkdf2_success E name kb sb iter keylen rest st md Hm Hd).
      do 3 eexists. split; [reflexivity |]. right. exists md. auto.
    + rewrite DependencyClaims.pbkdf2_unknown_digest by assumption.
      do 3 eexists. split; [reflexivity |]. left. eexists. eauto 10.
  - rewrite pbkdf2_key_refused by assumption.
    do 3 eexists. split; [reflexivity |]. left. eexists. eauto 10.
Qed.

Lemma scrypt_cases (E : env) (pb sb : nat) (n r p k : Z) (rest : list value)
  (st : state) :
  exists res h a evs,
    scrypt E (args_scrypt pb sb n r p k rest) st =
      (res, mkState h a (drawn st) (trace st ++ evs)) /\
    ((exists e, res = Throw e /\ exn_kind e = Error /\ h = heap st /\
                (evs = [Malloc (allocs st) (keylen_of k) false] \/
                 evs = [Malloc (allocs st) (keylen_of k) true; Free (allocs st)] \/
                 evs = [Malloc (allocs st) (keylen_of k) true;
                        Malloc (S (allocs st)) (128 * param_of r * param_of p) false;
                        Free (allocs st)] \/
                 evs = [Malloc (allocs st) (keylen_of k) true;
                        Malloc (S (allocs st)) (128 * param_of r * param_of p) true;
                        Malloc (S (S (allocs st))) (128 * param_of r * param_of n) false;
                        Free (S (allocs st)); Free (allocs st)])) \/
     (res = Ok (VBuffer (List.length (heap st))) /\
      h = (heap st ++ [Own (returned_key st pb sb n r p k)])%list /\
      evs = complete_run (allocs st) (param_of n) (param_of r) (param_of p)
              (keylen_of k))).
Proof.
  destruct (malloc_ok E (allocs st) (keylen_of k)) eqn:Hk;
    [| rewrite scrypt_key_refused by exact Hk;
       do 4 eexists; split; [reflexivity |]; left; eexists; eauto 10].
  destruct (Scrypt.valid_params (param_of n) (param_of r) (param_of p)) eqn:Hv;
    [| rewrite scrypt_params_refused by assumption;
       do 4 eexists; split; [reflexivity |]; left; eexists; eauto 10].
  destruct (malloc_ok E (S (allocs st)) (128 * param_of r * param_of p)) eqn:HB;
    [| rewrite scrypt_expanded_refused by assumption;
       do 4 eexists; split; [reflexivity |]; left; eexists; eauto 10].
  destruct (malloc_ok E (S (S (allocs st))) (128 * param_of r * param_of n)) eqn:HV;
    [| rewrite scrypt_scratch_refused by assumption;
       do 4 eexists; split; [reflexivity |]; left; eexists; eauto 10].
  rewrite scrypt_success by assumption.
  do 4 eexists. split; [reflexivity |]. right. auto.
Qed.

Lemma encipher_cases (E : env) (d k iv : nat) (rest : list value) (st : state) :
  (exists e, encipher E (args_cipher d k iv rest) st = (Throw e, st) /\
             exn_kind e = Error) \/
  (exists res h evs,
     encipher E (args_cipher d k iv rest) st =
       (res, mkState h (S (allocs st)) (drawn st) (trace st ++ evs)) /\
     ((exists e, res = Throw e /\ exn_kind e = Error /\ h = heap st /\
                 (evs = [Malloc (allocs st) (encipher_olen E st d) false] \/
                  evs = [Malloc (allocs st) (encipher_olen E st d) true; Cipher false;
                         Free (allocs st)])) \/
      (exists x, res = Ok (VBuffer (List.length (heap st))) /\ h = (heap st ++ [x])%list /\
                 evs = [Malloc (allocs st) (encipher_olen E st d) true; Cipher false]))).
Proof.
  destruct (Z.eq_dec (buffer_len st k) 32) as [Hk | Hk];
    [| left; eexists; split; [apply CipherClaims.encipher_bad_key; exact Hk | reflexivity]].
  destruct (Z.eq_dec (buffer_len st iv) 16) as [Hi | Hi];
    [| left; eexists; split;
       [apply CipherClaims.encipher_bad_iv; assumption | reflexivity]].
  right.
  destruct (malloc_ok E (allocs st) (encipher_olen E st d)) eqn:Hm.
  - destruct (bcrypto_encipher E (buffer st d) (buffer st k) (buffer st iv))
      as [ct |] eqn:Hc.
    + rewrite (encipher_done E d k iv rest st ct) by assumption.
      do 3 eexists. split; [reflexivity |]. right. eexists. eauto.
    + rewrite encipher_failed by assumption.
      do 3 eexists. split; [reflexivity |]. left. eexists. eauto 10.
  - rewrite encipher_refused by assumption.
    do 3 eexists. split; [reflexivity |]. left. eexists. eauto 10.
Qed.

Lemma decipher_cases (E : env) (d k iv : nat) (rest : list value) (st : state) :
  (exists e, decipher E (args_cipher d k iv rest) st = (Throw e, st) /\
             exn_kind e = Error) \/
  (exists res h evs,
     decipher E (args_cipher d k iv rest) st =
       (res, mkState h (S (allocs st)) (drawn st) (trace st ++ evs)) /\
     ((exists e, res = Throw e /\ exn_kind e = Error /\ h = heap st /\
                 (evs = [Malloc (allocs st) (decipher_olen E st d) false] \/
                  evs = [Malloc (allocs st) (decipher_olen E st d) true; Cipher true;
                         Free (allocs st)])) \/
      (exists x, res = Ok (VBuffer (List.length (heap st))) /\ h = (heap st ++ [x])%list /\
                 evs = [Malloc (allocs st) (decipher_olen E st d) true; Cipher true]))).
Proof.
  destruct (Z.eq_dec (buffer_len st k) 32) as [Hk | Hk];
    [| left; eexists; split; [apply CipherClaims.decipher_bad_key; exact Hk | reflexivity]].
  destruct (Z.eq_dec (buffer_len st iv) 16) as [Hi | Hi];
    [| left; eexists; split;
       [apply CipherClaims.decipher_bad_iv; assumption | reflexivity]].
  right.
  destruct (malloc_ok E (allocs st) (decipher_olen E st d)) eqn:Hm.
  - destruct (bcrypto_decipher E (buffer st d) (buffer st k) (buffer st iv))
      as [pt |] eqn:Hc.
    + rewrite (decipher_done E d k iv rest st pt) by assumption.
      do 3 eexists. split; [reflexivity |]. right. eexists. eauto.
    + rewrite decipher_failed by assumption.
      do 3 eexists. split; [reflexivity |]. left. eexists. eauto 10.
  - rewrite decipher_refused by assumption.
    do 3 eexists. split; [reflexivity |]. left. eexists. eauto 10.
Qed.

(** on well-typed arguments [random_fill] throws nothing but Errors *)
Lemma random_fill_cases (E : env) (b : nat) (pos size : Z) (rest : list value)
  (st : state) :
  (exists e st', random_fill E (args_random b pos size rest) st = (Throw e, st') /\
                 exn_kind e = Error) \/
  (exists v st', random_fill E (args_random b pos size rest) st = (Ok v, st')).
Proof.
  destruct (high_bit (buffer_len st b) || high_bit (to_uint32 pos)
            || high_bit (to_uint32 size)) eqn:Hh;
    [left; do 2 eexists; split;
       [apply RandomFill.random_fill_invalid_range; exact Hh | reflexivity] |].
  destruct (Z_gt_le_dec (to_uint32 pos + to_uint32 size) (buffer_len st b))
    as [Hgt | Hle];
    [left; do 2 eexists; split;
       [apply RandomFill.random_fill_exceeds; assumption | reflexivity] |].
  destruct (entropy E) as [src |] eqn:He.
  - right. do 2 eexists. apply (RandomFill.random_fill_success E b pos size rest st src);
      assumption.
  - left. do 2 eexists. split;
      [apply RandomFill.random_fill_no_entropy; assumption | reflexivity].
Qed.

End Cases.

(** ** Further properties of the methods *)
Module MethodProperties.
Import Host Native Bcrypto Props MoreProps Runtime Paths Shapes Cases.
Local Open Scope string_scope.
Local Open Scope Z_scope.

Lemma rejected_state {A : Type} (out : result A * state) (st st' : state)
  (res : result A) (P : exception -> Prop) :
  (exists e, out = (Throw e, st) /\ P e) -> out = (res, st') -> st' = st.
Proof. intros [e [H _]] H'. rewrite H in H'. injection H' as _ <-. reflexivity. Qed.

Ltac arity m k :=
  let info := fresh "info" in
  let st := fresh "st" in
  let H := fresh "H" in
  intros info st H; unfold m;
  destruct (Nat.ltb_spec (List.length info) k); [reflexivity | lia].

(** X1: each of the eight methods, called with fewer arguments than it
    has parameters, throws the Error "<name>() requires arguments." and
    does nothing else; and whenever a method throws a TypeError, the
    state is as it was before the call: nothing has been allocated,
    written, drawn from the random source or queued. *)
Theorem methods_check_arguments (E : env) :
  checks_arguments (pbkdf2 E) "pbkdf2" 5 /\
  checks_arguments (pbkdf2_async E) "pbkdf2_async" 6 /\
  checks_arguments (scrypt E) "scrypt" 6 /\
  checks_arguments scrypt_async "scrypt_async" 6 /\
  checks_arguments cleanse "cleanse" 1 /\
  checks_arguments (encipher E) "encipher" 3 /\
  checks_arguments (decipher E) "decipher" 3 /\
  checks_arguments (random_fill E) "random_fill" 3.
Proof.
  unfold checks_arguments. repeat split.
  - arity pbkdf2 5%nat.
  - intros info st e st' H Hk.
    destruct (pbkdf2_shape E info st) as [Hr | (name & kb & sb & iter & keylen & rest & ->)];
      [exact (rejected_state _ _ _ _ _ Hr H) |].
    destruct (pbkdf2_cases E name kb sb iter keylen rest st)
      as (res & h & evs & Heq & [(e1 & -> & Hkind & _) | (md & _ & _ & -> & _)]);
      rewrite Heq in H; [injection H as <- _; congruence | discriminate H].
  - arity pbkdf2_async 6%nat.
  - intros info st e st' H Hk.
    destruct (pbkdf2_async_shape E info st)
      as [Hr | (name & kb & sb & iter & keylen & cb & rest & ->)];
      [exact (rejected_state _ _ _ _ _ Hr H) |].
    destruct (EVP_get_digestbyname E name) as [md |] eqn:Hd.
    + rewrite (pbkdf2_async_queued E name kb sb iter keylen cb rest st md Hd) in H.
      discriminate H.
    + rewrite DependencyClaims.pbkdf2_async_unknown_digest in H by exact Hd.
      injection H as _ <-. reflexivity.
  - arity scrypt 6%nat.
  - intros info st e st' H Hk.
    destruct (scrypt_shape E info st) as [Hr | (pb & sb & n & r & p & k & rest & ->)];
      [exact (rejected_state _ _ _ _ _ Hr H) |].
    destruct (scrypt_cases E pb sb n r p k rest st)
      as (res & h & a & evs & Heq & [(e1 & -> & Hkind & _) | (-> & _)]);
      rewrite Heq in H; [injection H as <- _; congruence | discriminate H].
  - arity scrypt_async 6%nat.
  - intros info st e st' H Hk.
    destruct (scrypt_async_shape info st)
      as [Hr | (pb & sb & n & r & p & k & cb & rest & ->)];
      [exact (rejected_state _ _ _ _ _ Hr H) |].
    rewrite scrypt_async_queued in H. discriminate H.
  - arity cleanse 1%nat.
  - intros info st e st' H Hk.
    destruct (cleanse_shape info st) as [Hr | (b & rest & ->)];
      [exact (rejected_state _ _ _ _ _ Hr H) |].
    rewrite cleanse_run in H. discriminate H.
  - arity encipher 3%nat.
  - intros info st e st' H Hk.
    destruct (encipher_shape E info st) as [Hr | (d & k & iv & rest & ->)];
      [exact (rejected_state _ _ _ _ _ Hr H) |].
    destruct (encipher_cases E d k iv rest st)
      as [(e1 & Heq & Hkind)
         | (res & h & evs & Heq & [(e1 & -> & Hkind & _) | (x & -> & _)])];
      rewrite Heq in H;
      [injection H as <- _; congruence | injection H as <- _; congruence
       | discriminate H].
  - arity decipher 3%nat.
  - intros info st e st' H Hk.
    destruct (decipher_shape E info st) as [Hr | (d & k & iv & rest & ->)];
      [exact (rejected_state _ _ _ _ _ Hr H) |].
    destruct (decipher_cases E d k iv rest st)
      as [(e1 & Heq & Hkind)
         | (res & h & evs & Heq & [(e1 & -> & Hkind & _) | (x & -> & _)])];
      rewrite Heq in H;
      [injection H as <- _; congruence | injection H as <- _; congruence
       | discriminate H].
  - arity random_fill 3%nat.
  - intros info st e st' H Hk.
    destruct (random_fill_shape E info st) as [Hr | (b & pos & size & rest & ->)];
      [exact (rejected_state _ _ _ _ _ Hr H) |].
    destruct (random_fill_cases E b pos size rest st)
      as [(e1 & st1 & Heq & Hkind) | (v & st1 & Heq)];
      rewrite Heq in H; [injection H as <- _; congruence | discriminate H].
Qed.

Lemma new_events_grown (h : list cell) (a n : nat) (st : state) (l : list event) :
  new_events st (mkState h a n (trace st ++ l)) = l.
Proof.
  unfold new_events. cbn [trace].
  rewrite skipn_app, skipn_all, Nat.sub_diag. reflexivity.
Qed.

Lemma new_events_none (st : state) : new_events st st = [].
Proof. unfold new_events. apply skipn_all. Qed.

Lemma keeps_buffers_same (st : state) (a n : nat) (t : list event) :
  keeps_buffers st (mkState (heap st) a n t).
Proof. split; [intros b _; reflexivity | cbn [heap]; lia]. Qed.

Lemma keeps_buffers_refl (st : state) : keeps_buffers st st.
Proof. split; [intros b _; reflexivity | lia]. Qed.

Lemma keeps_buffers_new (st : state) (x : cell) (a n : nat) (t : list event) :
  keeps_buffers st (mkState (heap st ++ [x]) a n t).
Proof.
  split.
  - intros b Hb. apply buffer_old. exact Hb.
  - cbn [heap]. rewrite length_app. cbn [List.length]. lia.
Qed.

(** X2: [scrypt_async] tests for fewer than six arguments but reads a
    seventh.  Called with exactly six arguments it never reports
    missing arguments: it throws a TypeError and queues nothing; when the
    six are two Buffers and four numbers, the message is "Seventh
    argument must be a Function.". *)
Theorem scrypt_async_six_arguments (info : list value) (st : state) :
  List.length info = 6%nat ->
  (exists msg, scrypt_async info st = (Throw (mkExn TypeError msg), st)) /\
  (forall pb sb n r p k,
     info = args_scrypt pb sb n r p k [] ->
     scrypt_async info st =
       (Throw (mkExn TypeError "Seventh argument must be a Function."), st)).
Proof.
  intros Hlen. split.
  - destruct info as [| a0 [| a1 [| a2 [| a3 [| a4 [| a5 [| a6 rest]]]]]]];
      try discriminate Hlen.
    destruct a0 as [| | | pb |]; try (eexists; reflexivity).
    destruct a1 as [| | | sb |]; try (eexists; reflexivity).
    destruct a2 as [| | n | |]; try (eexists; reflexivity).
    destruct a3 as [| | r | |]; try (eexists; reflexivity).
    destruct a4 as [| | p | |]; try (eexists; reflexivity).
    destruct a5 as [| | k | |]; eexists; reflexivity.
  - intros pb sb n r p k ->. reflexivity.
Qed.

Lemma scrypt_async_six_arguments_witness :
  scrypt_async (args_scrypt 0 1 1024 8 16 64 []) (start [password; NaCl]) =
  (Throw (mkExn TypeError "Seventh argument must be a Function."),
   start [password; NaCl]).
Proof.
  destruct (scrypt_async_six_arguments (args_scrypt 0 1 1024 8 16 64 [])
              (start [password; NaCl])) as [_ H].
  - reflexivity.
  - apply (H 0%nat 1%nat 1024 8 16 64). reflexivity.
Defined.

(** X3: [scrypt_async] does nothing but queue one piece of work: it
    never allocates, never writes to a Buffer and never draws random
    bytes.  It returns (undefined) exactly when it is given two Buffers,
    four numbers and a function, and then the queued work carries the
    lengths and parameters as [scrypt] converts them; the parameters are
    not validated, so a call with parameters that violate the
    invariants is queued like any other. *)
Theorem scrypt_async_only_queues (info : list value) (st : state) :
  only_queues st (snd (scrypt_async info st)) /\
  (forall v,
     fst (scrypt_async info st) = Ok v ->
     v = VUndefined /\
     exists pb sb n r p k callback rest,
       info = args_scrypt_async pb sb n r p k callback rest /\
       new_events st (snd (scrypt_async info st)) =
         [Queue (ScryptWork (VBuffer pb) (VBuffer sb) (passlen_of st pb)
                   (saltlen_of st sb) (param_of n) (param_of r) (param_of p)
                   (keylen_of k) (VFunction callback))]) /\
  (forall pb sb n r p k callback rest,
     info = args_scrypt_async pb sb n r p k callback rest ->
     fst (scrypt_async info st) = Ok VUndefined).
Proof.
  destruct (scrypt_async_shape info st)
    as [(e & Hr & _) | (pb & sb & n & r & p & k & cb & rest & ->)].
  - rewrite Hr. cbn [fst snd]. split; [| split].
    + unfold only_queues. rewrite new_events_none. auto.
    + intros v Hv. discriminate Hv.
    + intros pb sb n r p k cb rest ->. rewrite scrypt_async_queued in Hr.
      discriminate Hr.
  - rewrite scrypt_async_queued. cbn [fst snd]. split; [| split].
    + unfold only_queues. cbn [heap allocs drawn]. rewrite new_events_grown.
      repeat split. right. eexists. reflexivity.
    + intros v Hv. injection Hv as <-. split; [reflexivity |].
      exists pb, sb, n, r, p, k, cb, rest. split; [reflexivity |].
      apply new_events_grown.
    + reflexivity.
Qed.

(** X4: [pbkdf2_async] does nothing but queue one piece of work.  It
    returns (undefined) exactly when it is given a string, two Buffers,
    two numbers and a function and the digest name is registered; the
    queued work carries the digest found, the two Buffers, their lengths
    as 32-bit values, the iteration count and the key length modulo
    2^32, and the callback. *)
Theorem pbkdf2_async_only_queues (E : env) (info : list value) (st : state) :
  only_queues st (snd (pbkdf2_async E info st)) /\
  (forall v,
     fst (pbkdf2_async E info st) = Ok v ->
     v = VUndefined /\
     exists name kb sb iter keylen callback rest md,
       info = args_pbkdf2_async name kb sb iter keylen callback rest /\
       EVP_get_digestbyname E name = Some md /\
       new_events st (snd (pbkdf2_async E info st)) =
         [Queue (PBKDF2Work md (VBuffer kb) (VBuffer sb)
                   (to_uint32 (buffer_len st kb))
                   (to_uint32 (to_size_t (buffer_len st sb)))
                   (to_uint32 iter) (to_uint32 keylen) (VFunction callback))]) /\
  (forall name kb sb iter keylen callback rest md,
     info = args_pbkdf2_async name kb sb iter keylen callback rest ->
     EVP_get_digestbyname E name = Some md ->
     fst (pbkdf2_async E info st) = Ok VUndefined).
Proof.
  destruct (pbkdf2_async_shape E info st)
    as [(e & Hr & _) | (name & kb & sb & iter & keylen & cb & rest & ->)].
  - rewrite Hr. cbn [fst snd]. split; [| split].
    + unfold only_queues. rewrite new_events_none. auto.
    + intros v Hv. discriminate Hv.
    + intros name kb sb iter keylen cb rest md -> Hd.
      rewrite (pbkdf2_async_queued E name kb sb iter keylen cb rest st md Hd) in Hr.
      discriminate Hr.
  - destruct (EVP_get_digestbyname E name) as [md |] eqn:Hd.
    + rewrite (pbkdf2_async_queued E name kb sb iter keylen cb rest st md Hd).
      cbn [fst snd]. split; [| split].
      * unfold only_queues. cbn [heap allocs drawn]. rewrite new_events_grown.
        repeat split. right. eexists. reflexivity.
      * intros v Hv. injection Hv as <-. split; [reflexivity |].
        exists name, kb, sb, iter, keylen, cb, rest, md.
        split; [reflexivity |]. split; [exact Hd |]. apply new_events_grown.
      * reflexivity.
    + rewrite DependencyClaims.pbkdf2_async_unknown_digest by exact Hd.
      cbn [fst snd]. split; [| split].
      * unfold only_queues. rewrite new_events_none. auto.
      * intros v Hv. discriminate Hv.
      * intros name' kb' sb' iter' keylen' cb' rest' md' Heq Hd'.
        injection Heq as <- _. congruence.
Qed.

(** X5: [pbkdf2] either throws, or returns a new Buffer of exactly
    keylen modulo 2^32 bytes; it returns only when it is given a
    string, two Buffers and two numbers, the digest name is registered
    and the key buffer is granted, and the Buffer then holds the key
    written by the PRF over the fresh block (the PRF has run once and
    the block has not been freed). *)
Theorem pbkdf2_key_or_error (E : env) (info : list value) (st : state) :
  (exists e st', pbkdf2 E info st = (Throw e, st')) \/
  (exists name kb sb iter keylen rest md st',
     info = args_pbkdf2 name kb sb iter keylen rest /\
     EVP_get_digestbyname E name = Some md /\
     malloc_ok E (allocs st) (to_uint32 keylen) = true /\
     pbkdf2 E info st = (Ok (VBuffer (List.length (heap st))), st') /\
     Z.of_nat (List.length (buffer st' (List.length (heap st)))) = to_uint32 keylen /\
     buffer st' (List.length (heap st)) =
       write_into (map (garbage E) (seq 0 (Z.to_nat (to_uint32 keylen))))
         (pbkdf2_key md st kb sb iter keylen) /\
     new_events st st' =
       [Malloc (allocs st) (to_uint32 keylen) true; Prf (to_uint32 keylen)]).
Proof.
  destruct (pbkdf2_shape E info st)
    as [(e & Hr & _) | (name & kb & sb & iter & keylen & rest & ->)];
    [left; eauto |].
  destruct (pbkdf2_cases E name kb sb iter keylen rest st)
    as (res & h & evs & Heq & [(e1 & -> & _) | (md & Hd & Hm & -> & -> & ->)]);
    [left; eauto |].
  right. exists name, kb, sb, iter, keylen, rest, md. eexists.
  split; [reflexivity |]. split; [exact Hd |]. split; [exact Hm |].
  split; [exact Heq |].
  rewrite buffer_new, new_events_grown.
  split; [| split; reflexivity].
  rewrite write_into_length, fresh_block_length.
  apply Z2Nat.id. apply RandomFill.to_uint32_range.
Qed.

Ltac freed :=
  let i := fresh "i" in
  let n := fresh "n" in
  let Hin := fresh "Hin" in
  intros i n Hin; cbn [In] in Hin |- *;
  repeat (destruct Hin as [Hin | Hin];
          [ first [ discriminate Hin | injection Hin as <- <-; auto 10 ] |]);
  contradiction.

(** X6: the four methods that allocate release what they were granted
    when they fail: after a call of [pbkdf2], [scrypt], [encipher] or
    [decipher] that throws, every block granted during the call has been
    freed during the call. *)
Theorem failures_release_memory (E : env) :
  releases_on_failure (pbkdf2 E) /\ releases_on_failure (scrypt E) /\
  releases_on_failure (encipher E) /\ releases_on_failure (decipher E).
Proof.
  unfold releases_on_failure. repeat split; intros info st e st' H.
  - destruct (pbkdf2_shape E info st)
      as [Hr | (name & kb & sb & iter & keylen & rest & ->)].
    { rewrite (rejected_state _ _ _ _ _ Hr H), new_events_none. intros i n []. }
    destruct (pbkdf2_cases E name kb sb iter keylen rest st)
      as (res & h & evs & Heq & [(e1 & -> & _ & _ & Hev) | (md & _ & _ & -> & _)]);
      rewrite Heq in H; [| discriminate H].
    injection H as _ <-. rewrite new_events_grown.
    destruct Hev as [-> | ->]; freed.
  - destruct (scrypt_shape E info st) as [Hr | (pb & sb & n & r & p & k & rest & ->)].
    { rewrite (rejected_state _ _ _ _ _ Hr H), new_events_none. intros i m []. }
    destruct (scrypt_cases E pb sb n r p k rest st)
      as (res & h & a & evs & Heq & [(e1 & -> & _ & _ & Hev) | (-> & _)]);
      rewrite Heq in H; [| discriminate H].
    injection H as _ <-. rewrite new_events_grown.
    destruct Hev as [-> | [-> | [-> | ->]]]; freed.
  - destruct (encipher_shape E info st) as [Hr | (d & k & iv & rest & ->)].
    { rewrite (rejected_state _ _ _ _ _ Hr H), new_events_none. intros i m []. }
    destruct (encipher_cases E d k iv rest st)
      as [(e1 & Heq & _)
         | (res & h & evs & Heq & [(e1 & -> & _ & _ & Hev) | (x & -> & _)])];
      rewrite Heq in H.
    + injection H as _ <-. rewrite new_events_none. intros i m [].
    + injection H as _ <-. rewrite new_events_grown.
      destruct Hev as [-> | ->]; freed.
    + discriminate H.
  - destruct (decipher_shape E info st) as [Hr | (d & k & iv & rest & ->)].
    { rewrite (rejected_state _ _ _ _ _ Hr H), new_events_none. intros i m []. }
    destruct (decipher_cases E d k iv rest st)
      as [(e1 & Heq & _)
         | (res & h & evs & Heq & [(e1 & -> & _ & _ & Hev) | (x & -> & _)])];
      rewrite Heq in H.
    + injection H as _ <-. rewrite new_events_none. intros i m [].
    + injection H as _ <-. rewrite new_events_grown.
      destruct Hev as [-> | ->]; freed.
    + discriminate H.
Qed.

Lemma complete_run_in (a : nat) (N r p keylen : Z) (e : event) :
  In e (complete_run a N r p keylen) ->
  In e [Malloc a keylen true; Malloc (S a) (128 * r * p) true;
        Malloc (S (S a)) (128 * r * N) true; Prf (128 * r * p);
        Prf keylen; Free (S (S a)); Free (S a)] \/
  exists i, e = Smix i.
Proof.
  unfold complete_run. rewrite !in_app_iff, in_map_iff. cbn [In].
  intros [H | [(i & <- & _) | H]]; [left; tauto | right; eauto | left; tauto].
Qed.

Lemma complete_run_frees (a : nat) (N r p keylen : Z) :
  In (Free (S a)) (complete_run a N r p keylen) /\
  In (Free (S (S a))) (complete_run a N r p keylen).
Proof.
  unfold complete_run. rewrite !in_app_iff. cbn [In]. auto 10.
Qed.

(** X7: a call of [pbkdf2], [scrypt], [encipher] or [decipher] that
    returns has been granted its first block, which backs the Buffer
    returned and is not freed during the call, and has freed every other
    block it was granted. *)
Theorem results_keep_their_block (E : env) :
  hands_over_first_block (pbkdf2 E) /\ hands_over_first_block (scrypt E) /\
  hands_over_first_block (encipher E) /\ hands_over_first_block (decipher E).
Proof.
  unfold hands_over_first_block. repeat split.
  1-3: revert H; intros H;
    destruct (pbkdf2_shape E info st)
      as [(e & Hr & _) | (name & kb & sb & iter & keylen & rest & ->)];
    [rewrite Hr in H; discriminate H |];
    destruct (pbkdf2_cases E name kb sb iter keylen rest st)
      as (res & h & evs & Heq & [(e1 & -> & _) | (md & _ & _ & -> & _ & ->)]);
    rewrite Heq in H; [discriminate H |];
    injection H as _ <-; rewrite new_events_grown.
  - eexists. left. reflexivity.
  - cbn [In]. intros [Hin | [Hin | []]]; discriminate Hin.
  - intros i n [Hin | [Hin | []]] Hne; [injection Hin as <- _ | discriminate Hin].
    contradiction.
  - destruct (scrypt_shape E info st)
      as [(e & Hr & _) | (pb & sb & n & r & p & k & rest & ->)];
      [rewrite Hr in H; discriminate H |].
    destruct (scrypt_cases E pb sb n r p k rest st)
      as (res & h & a & evs & Heq & [(e1 & -> & _) | (-> & _ & ->)]);
      rewrite Heq in H; [discriminate H |].
    injection H as _ <-. rewrite new_events_grown.
    eexists. left. reflexivity.
  - destruct (scrypt_shape E info st)
      as [(e & Hr & _) | (pb & sb & n & r & p & k & rest & ->)];
      [rewrite Hr in H; discriminate H |].
    destruct (scrypt_cases E pb sb n r p k rest st)
      as (res & h & a & evs & Heq & [(e1 & -> & _) | (-> & _ & ->)]);
      rewrite Heq in H; [discriminate H |].
    injection H as _ <-. rewrite new_events_grown.
    intros Hin. apply complete_run_in in Hin. cbn [In] in Hin.
    destruct Hin as [Hin | (i & Hin)]; [| discriminate Hin].
    repeat (destruct Hin as [Hin | Hin]; [try discriminate Hin |]);
      [injection Hin; lia | injection Hin; lia | contradiction].
  - intros i m Hin Hne. revert Hin.
    destruct (scrypt_shape E info st)
      as [(e & Hr & _) | (pb & sb & n & r & p & k & rest & ->)];
      [rewrite Hr in H; discriminate H |].
    destruct (scrypt_cases E pb sb n r p k rest st)
      as (res & h & a & evs & Heq & [(e1 & -> & _) | (-> & _ & ->)]);
      rewrite Heq in H; [discriminate H |].
    injection H as _ <-. rewrite new_events_grown.
    intros Hin. apply complete_run_in in Hin. cbn [In] in Hin.
    destruct Hin as [Hin | (j & Hin)]; [| discriminate Hin].
    repeat (destruct Hin as [Hin | Hin]; [try discriminate Hin |]);
      [injection Hin as <- _; contradiction
      | injection Hin as <- _; apply complete_run_frees
      | injection Hin as <- _; apply complete_run_frees
      | contradiction].
  - destruct (encipher_shape E info st) as [(e & Hr & _) | (d & k & iv & rest & ->)];
      [rewrite Hr in H; discriminate H |].
    destruct (encipher_cases E d k iv rest st)
      as [(e1 & Heq & _)
         | (res & h & evs & Heq & [(e1 & -> & _) | (x & -> & _ & ->)])];
      rewrite Heq in H; try discriminate H.
    injection H as _ <-. rewrite new_events_grown. eexists. left. reflexivity.
  - destruct (encipher_shape E info st) as [(e & Hr & _) | (d & k & iv & rest & ->)];
      [rewrite Hr in H; discriminate H |].
    destruct (encipher_cases E d k iv rest st)
      as [(e1 & Heq & _)
         | (res & h & evs & Heq & [(e1 & -> & _) | (x & -> & _ & ->)])];
      rewrite Heq in H; try discriminate H.
    injection H as _ <-. rewrite new_events_grown.
    cbn [In]. intros [Hin | [Hin | []]]; discriminate Hin.
  - intros i m Hin Hne. revert Hin.
    destruct (encipher_shape E info st) as [(e & Hr & _) | (d & k & iv & rest & ->)];
      [rewrite Hr in H; discriminate H |].
    destruct (encipher_cases E d k iv rest st)
      as [(e1 & Heq & _)
         | (res & h & evs & Heq & [(e1 & -> & _) | (x & -> & _ & ->)])];
      rewrite Heq in H; try discriminate H.
    injection H as _ <-. rewrite new_events_grown.
    intros [Hin | [Hin | []]]; [injection Hin as <- _ | discriminate Hin].
    contradiction.
  - destruct (decipher_shape E info st) as [(e & Hr & _) | (d & k & iv & rest & ->)];
      [rewrite Hr in H; discriminate H |].
    destruct (decipher_cases E d k iv rest st)
      as [(e1 & Heq & _)
         | (res & h & evs & Heq & [(e1 & -> & _) | (x & -> & _ & ->)])];
      rewrite Heq in H; try discriminate H.
    injection H as _ <-. rewrite new_events_grown. eexists. left. reflexivity.
  - destruct (decipher_shape E info st) as [(e & Hr & _) | (d & k & iv & rest & ->)];
      [rewrite Hr in H; discriminate H |].
    destruct (decipher_cases E d k iv rest st)
      as [(e1 & Heq & _)
         | (res & h & evs & Heq & [(e1 & -> & _) | (x & -> & _ & ->)])];
      rewrite Heq in H; try discriminate H.
    injection H as _ <-. rewrite new_events_grown.
    cbn [In]. intros [Hin | [Hin | []]]; discriminate Hin.
  - intros i m Hin Hne. revert Hin.
    destruct (decipher_shape E info st) as [(e & Hr & _) | (d & k & iv & rest & ->)];
      [rewrite Hr in H; discriminate H |].
    destruct (decipher_cases E d k iv rest st)
      as [(e1 & Heq & _)
         | (res & h & evs & Heq & [(e1 & -> & _) | (x & -> & _ & ->)])];
      rewrite Heq in H; try discriminate H.
    injection H as _ <-. rewrite new_events_grown.
    intros [Hin | [Hin | []]]; [injection Hin as <- _ | discriminate Hin].
    contradiction.
Qed.

(** X8: the key-derivation methods never change a Buffer that exists
    when they are called, whatever the arguments and whether they return
    or throw: after [pbkdf2], [pbkdf2_async], [scrypt] or [scrypt_async]
    every Buffer there was holds the bytes it held, and at most one
    Buffer has been added. *)
Theorem derivations_keep_inputs (E : env) :
  keeps_inputs (pbkdf2 E) /\ keeps_inputs (pbkdf2_async E) /\
  keeps_inputs (scrypt E) /\ keeps_inputs scrypt_async.
Proof.
  unfold keeps_inputs. split; [| split; [| split]]; intros info st res st' H.
  - destruct (pbkdf2_shape E info st)
      as [Hr | (name & kb & sb & iter & keylen & rest & ->)].
    { rewrite (rejected_state _ _ _ _ _ Hr H). apply keeps_buffers_refl. }
    destruct (pbkdf2_cases E name kb sb iter keylen rest st)
      as (r0 & h & evs & Heq & [(e1 & _ & _ & -> & _) | (md & _ & _ & _ & -> & _)]);
      rewrite Heq in H; injection H as _ <-.
    + apply keeps_buffers_same.
    + apply keeps_buffers_new.
  - destruct (pbkdf2_async_shape E info st)
      as [Hr | (name & kb & sb & iter & keylen & cb & rest & ->)].
    { rewrite (rejected_state _ _ _ _ _ Hr H). apply keeps_buffers_refl. }
    destruct (EVP_get_digestbyname E name) as [md |] eqn:Hd.
    + rewrite (pbkdf2_async_queued E name kb sb iter keylen cb rest st md Hd) in H.
      injection H as _ <-. apply keeps_buffers_same.
    + rewrite DependencyClaims.pbkdf2_async_unknown_digest in H by exact Hd.
      injection H as _ <-. apply keeps_buffers_refl.
  - destruct (scrypt_shape E info st) as [Hr | (pb & sb & n & r & p & k & rest & ->)].
    { rewrite (rejected_state _ _ _ _ _ Hr H). apply keeps_buffers_refl. }
    destruct (scrypt_cases E pb sb n r p k rest st)
      as (r0 & h & a & evs & Heq & [(e1 & _ & _ & -> & _) | (_ & -> & _)]);
      rewrite Heq in H; injection H as _ <-.
    + apply keeps_buffers_same.
    + apply keeps_buffers_new.
  - destruct (scrypt_async_shape info st)
      as [Hr | (pb & sb & n & r & p & k & cb & rest & ->)].
    { rewrite (rejected_state _ _ _ _ _ Hr H). apply keeps_buffers_refl. }
    rewrite scrypt_async_queued in H. injection H as _ <-.
    apply keeps_buffers_same.
Qed.

Lemma splice_length (l : list byte) (off len : nat) (d : list byte) :
  List.length d = List.length (firstn len (skipn off l)) ->
  List.length (splice l off d) = List.length l.
Proof.
  intros H. rewrite length_firstn, length_skipn in H. unfold splice.
  rewrite !length_app, length_firstn, length_skipn. lia.
Qed.

Lemma nth_replace_own (h : list cell) (c : nat) (l l' : list byte) :
  nth c h (Own []) = Own l -> List.length l' = List.length l ->
  exists l'', nth c (replace_nth c h (Own l')) (Own []) = Own l'' /\
              List.length l'' = List.length l.
Proof.
  intros Hc Hl. destruct (Nat.lt_ge_cases c (List.length h)) as [Hlt | Hge].
  - exists l'. split; [apply replace_nth_same; exact Hlt | exact Hl].
  - exists []. rewrite nth_overflow in Hc by exact Hge. injection Hc as <-.
    split; [apply nth_overflow; rewrite replace_nth_length; exact Hge | reflexivity].
Qed.

(** a write of as many bytes as there were changes the length of no
    Buffer *)
Lemma view_replace_length (h : list cell) (c : nat) (l l' : list byte) (b : nat) :
  nth c h (Own []) = Own l -> List.length l' = List.length l ->
  List.length (view (replace_nth c h (Own l')) b) = List.length (view h b).
Proof.
  intros Hc Hl. destruct (nth_replace_own h c l l' Hc Hl) as (l'' & Hn & Hl'').
  unfold view, memory. destruct (Nat.eq_dec c b) as [<- | Hne].
  - rewrite Hn, Hc. exact Hl''.
  - rewrite replace_nth_other by exact Hne.
    destruct (nth b h (Own [])) as [l0 | p off len]; [reflexivity |].
    destruct (p <? b)%nat; [| reflexivity].
    destruct (Nat.eq_dec c p) as [<- | Hp].
    + rewrite Hn, Hc. rewrite !length_firstn, !length_skipn, Hl''. reflexivity.
    + rewrite replace_nth_other by exact Hp. reflexivity.
Qed.

Lemma poke_view_length (h : list cell) (b : nat) (d : list byte) (b' : nat) :
  List.length d = List.length (view h b) ->
  List.length (view (poke h b d) b') = List.length (view h b').
Proof.
  unfold poke. intros H. unfold view at 1 in H.
  destruct (nth b h (Own [])) as [l | p off len] eqn:Hb.
  - apply (view_replace_length h b l d b' Hb H).
  - destruct (p <? b)%nat; [| reflexivity].
    unfold memory in H.
    destruct (nth p h (Own [])) as [l | p' off' len'] eqn:Hp; [| reflexivity].
    apply (view_replace_length h p l _ b' Hp).
    apply (splice_length l off len d H).
Qed.

(** X9: [cleanse] either throws with the state as it was, or it is
    given a Buffer and returns (undefined) after overwriting the memory
    that Buffer views with zero bytes: the Buffer then holds zeros only,
    every Buffer keeps its length, every Buffer over other memory is
    untouched (a Buffer over the same memory sees the zeros), and
    nothing is allocated, drawn or queued. *)
Theorem cleanse_zeroes (info : list value) (st : state) :
  (exists e, cleanse info st = (Throw e, st)) \/
  (exists b rest st',
     info = args_cleanse b rest /\
     cleanse info st = (Ok VUndefined, st') /\
     buffer st' b = repeat x00 (List.length (buffer st b)) /\
     (forall b', base st b' <> base st b -> buffer st' b' = buffer st b') /\
     (forall b', List.length (buffer st' b') = List.length (buffer st b')) /\
     List.length (heap st') = List.length (heap st) /\
     allocs st' = allocs st /\ drawn st' = drawn st /\
     new_events st st' = [Cleanse b]).
Proof.
  destruct (cleanse_shape info st) as [(e & Hr & _) | (b & rest & ->)];
    [left; eauto |].
  right. exists b, rest. eexists.
  split; [reflexivity |]. split; [apply cleanse_run |].
  assert (Hlen : List.length (repeat x00 (List.length (buffer st b))) =
                 List.length (view (heap st) b)) by apply repeat_length.
  split; [| split; [| split; [| split; [| split; [| split]]]]].
  - unfold buffer at 1. cbn [heap]. apply view_poke_same. exact Hlen.
  - intros b' Hne. unfold buffer at 1. cbn [heap]. apply view_poke_other. exact Hne.
  - intros b'. unfold buffer at 1. cbn [heap]. apply poke_view_length. exact Hlen.
  - cbn [heap]. apply poke_length.
  - reflexivity.
  - reflexivity.
  - apply new_events_grown.
Qed.

(** a slice of a Buffer is cleansed: the Buffer it is a slice of has
    zeros there *)
Lemma cleanse_zeroes_witness :
  buffer (snd (cleanse (args_cleanse 1 [])
                 (mkState [Own [x01; x02; x03; x04]; Slice 0 1 2] 0 0 []))) 0 =
    [x01; x00; x00; x04] /\
  buffer (snd (cleanse (args_cleanse 1 [])
                 (mkState [Own [x01; x02; x03; x04]; Slice 0 1 2] 0 0 []))) 1 =
    [x00; x00].
Proof.
  destruct (cleanse_zeroes (args_cleanse 1 [])
              (mkState [Own [x01; x02; x03; x04]; Slice 0 1 2] 0 0 []))
    as [(e & He) | (b & rest & st' & Hi & Hc & Hz & _)].
  - discriminate He.
  - injection Hi as <- _. rewrite Hc. cbn [snd].
    split; [| exact Hz].
    injection Hc as <-. reflexivity.
Defined.

Lemma cipher_output (E : env) (h : list cell) (out : list byte) (n : Z)
  (a m : nat) (t : list event) :
  n < 2 ^ 32 ->
  Z.of_nat (List.length out) <= n ->
  buffer
    (mkState
       (h ++ [Own (firstn (Z.to_nat (to_uint32 (Z.of_nat (List.length out))))
                     (write_into (map (garbage E) (seq 0 (Z.to_nat n))) out))])
       a m t) (List.length h) = out.
Proof.
  intros Hn Hle. rewrite buffer_new.
  unfold to_uint32. rewrite Z.mod_small, Nat2Z.id by lia.
  apply firstn_write_into. rewrite fresh_block_length. lia.
Qed.

(** X10: [encipher] and [decipher] run the cipher only when they are
    given three Buffers, the key has 32 bytes, the IV has 16 bytes and
    the output block has been granted; and when they return, the cipher
    has succeeded on the bytes of the three Buffers and the value
    returned is a new Buffer which, if the cipher kept to the size
    requested for it, holds exactly the bytes the cipher produced. *)
Theorem ciphers_guarded (E : env) :
  cipher_guarded (encipher E) (bcrypto_encipher E) (encipher_olen E) false /\
  cipher_guarded (decipher E) (bcrypto_decipher E) (decipher_olen E) true.
Proof.
  unfold cipher_guarded. split; intros info st res st' H.
  - destruct (encipher_shape E info st) as [Hr | (d & k & iv & rest & ->)].
    { rewrite (rejected_state _ _ _ _ _ Hr H), new_events_none.
      destruct Hr as (e & Hr & _). rewrite Hr in H. injection H as <-.
      split; [intros [] | intros v Hv; discriminate Hv]. }
    destruct (Z.eq_dec (buffer_len st k) 32) as [Hk | Hk];
      [| rewrite CipherClaims.encipher_bad_key in H by exact Hk;
         injection H as <- <-; rewrite new_events_none;
         split; [intros [] | intros v Hv; discriminate Hv]].
    destruct (Z.eq_dec (buffer_len st iv) 16) as [Hi | Hi];
      [| rewrite CipherClaims.encipher_bad_iv in H by assumption;
         injection H as <- <-; rewrite new_events_none;
         split; [intros [] | intros v Hv; discriminate Hv]].
    destruct (malloc_ok E (allocs st) (encipher_olen E st d)) eqn:Hm;
      [| rewrite encipher_refused in H by assumption;
         injection H as <- <-; rewrite new_events_grown;
         split; [intros [Hin | []]; discriminate Hin | intros v Hv; discriminate Hv]].
    destruct (bcrypto_encipher E (buffer st d) (buffer st k) (buffer st iv))
      as [ct |] eqn:Hc.
    + rewrite (encipher_done E d k iv rest st ct) in H by assumption.
      injection H as <- <-. rewrite new_events_grown. split.
      * intros _. exists d, k, iv, rest. cbn [In]. auto.
      * intros v Hv. injection Hv as <-. exists d, k, iv, rest, ct.
        split; [reflexivity |]. split; [exact Hc |]. split; [reflexivity |].
        apply cipher_output. apply Z.mod_pos_bound. lia.
    + rewrite encipher_failed in H by assumption.
      injection H as <- <-. rewrite new_events_grown. split.
      * intros _. exists d, k, iv, rest. cbn [In]. auto.
      * intros v Hv. discriminate Hv.
  - destruct (decipher_shape E info st) as [Hr | (d & k & iv & rest & ->)].
    { rewrite (rejected_state _ _ _ _ _ Hr H), new_events_none.
      destruct Hr as (e & Hr & _). rewrite Hr in H. injection H as <-.
      split; [intros [] | intros v Hv; discriminate Hv]. }
    destruct (Z.eq_dec (buffer_len st k) 32) as [Hk | Hk];
      [| rewrite CipherClaims.decipher_bad_key in H by exact Hk;
         injection H as <- <-; rewrite new_events_none;
         split; [intros [] | intros v Hv; discriminate Hv]].
    destruct (Z.eq_dec (buffer_len st iv) 16) as [Hi | Hi];
      [| rewrite CipherClaims.decipher_bad_iv in H by assumption;
         injection H as <- <-; rewrite new_events_none;
         split; [intros [] | intros v Hv; discriminate Hv]].
    destruct (malloc_ok E (allocs st) (decipher_olen E st d)) eqn:Hm;
      [| rewrite decipher_refused in H by assumption;
         injection H as <- <-; rewrite new_events_grown;
         split; [intros [Hin | []]; discriminate Hin | intros v Hv; discriminate Hv]].
    destruct (bcrypto_decipher E (buffer st d) (buffer st k) (buffer st iv))
      as [pt |] eqn:Hc.
    + rewrite (decipher_done E d k iv rest st pt) in H by assumption.
      injection H as <- <-. rewrite new_events_grown. split.
      * intros _. exists d, k, iv, rest. cbn [In]. auto.
      * intros v Hv. injection Hv as <-. exists d, k, iv, rest, pt.
        split; [reflexivity |]. split; [exact Hc |]. split; [reflexivity |].
        apply cipher_output. apply Z.mod_pos_bound. lia.
    + rewrite decipher_failed in H by assumption.
      injection H as <- <-. rewrite new_events_grown. split.
      * intros _. exists d, k, iv, rest. cbn [In]. auto.
      * intros v Hv. discriminate Hv.
Qed.

Lemma ciphers_guarded_witness :
  buffer
    (snd (encipher toy_env (args_cipher 0 1 2 [])
            (start [password; repeat x01 32; repeat x02 16]))) 3 =
  rev password.
Proof.
  destruct (proj1 (ciphers_guarded toy_env) (args_cipher 0 1 2 [])
              (start [password; repeat x01 32; repeat x02 16]) _ _
              (surjective_pairing _)) as [_ H].
  destruct (H (VBuffer 3) eq_refl) as (d & k & iv & rest & out & Hi & Hr & _ & Hb).
  injection Hi as <- <- <- _.
  injection Hr as <-.
  apply Hb. vm_compute. discriminate.
Defined.

End MethodProperties.

(** ** The test vectors of RFC 7914: claim C3 *)
Module Vectors.
Import Host Native Bcrypto Props Runtime ScryptOutcomes.
Local Open Scope string_scope.
Local Open Scope Z_scope.

#[local] Arguments Scrypt.scrypt_kdf : simpl never.

Lemma rfc7914_kdf_1 : Scrypt.scrypt_kdf [] [] 16 1 1 64 = rfc7914_vector_1.
Proof. vm_compute. reflexivity. Qed.

Lemma rfc7914_kdf_2 : Scrypt.scrypt_kdf password NaCl 1024 8 16 64 = rfc7914_vector_2.
Proof. vm_compute. reflexivity. Qed.

(** the derivation reads the whole Buffers (their lengths fit 32 bits) *)
Lemma derived_key_small (st : state) (pb sb : nat) (n r p k : Z) :
  Z.of_nat (List.length (buffer st pb)) < 2 ^ 32 ->
  Z.of_nat (List.length (buffer st sb)) < 2 ^ 32 ->
  0 <= n < 2 ^ 63 -> 0 <= r < 2 ^ 63 -> 0 <= p < 2 ^ 63 -> 0 <= k < 2 ^ 63 ->
  derived_key st pb sb n r p k = Scrypt.scrypt_kdf (buffer st pb) (buffer st sb) n r p k.
Proof.
  intros Hpb Hsb Hn Hr Hp Hk.
  unfold derived_key, passlen_of, saltlen_of, to_uint32, to_size_t.
  rewrite !Z.mod_small by lia.
  rewrite !Nat2Z.id, !firstn_all.
  rewrite ?param_of_small, ?keylen_of_small by assumption.
  reflexivity.
Qed.

(** C3: with its allocations granted, [scrypt] on the empty password
    and salt with N=16, r=1, p=1, keylen=64 returns the 64 bytes of the
    first test vector of RFC 7914, and on "password", "NaCl" with
    N=1024, r=8, p=16, keylen=64 the 64 bytes of the second one. *)
Theorem scrypt_rfc7914_vectors (E : env) (st : state) (pb sb pb' sb' : nat)
  (rest : list value) :
  (forall a n, malloc_ok E a n = true) ->
  buffer st pb = [] -> buffer st sb = [] ->
  buffer st pb' = password -> buffer st sb' = NaCl ->
  (exists st1,
     scrypt E (args_scrypt pb sb 16 1 1 64 rest) st =
       (Ok (VBuffer (List.length (heap st))), st1) /\
     buffer st1 (List.length (heap st)) = rfc7914_vector_1) /\
  (exists st2,
     scrypt E (args_scrypt pb' sb' 1024 8 16 64 rest) st =
       (Ok (VBuffer (List.length (heap st))), st2) /\
     buffer st2 (List.length (heap st)) = rfc7914_vector_2).
Proof.
  intros Hm Hpb Hsb Hpb' Hsb'. split.
  - eexists. split.
    + apply scrypt_success; try apply Hm. reflexivity.
    + rewrite buffer_new, returned_key_whole by (rewrite keylen_of_small; lia).
      rewrite derived_key_small;
        [ rewrite Hpb, Hsb; apply rfc7914_kdf_1
        | rewrite Hpb; reflexivity | rewrite Hsb; reflexivity | lia .. ].
  - eexists. split.
    + apply scrypt_success; try apply Hm. reflexivity.
    + rewrite buffer_new, returned_key_whole by (rewrite keylen_of_small; lia).
      rewrite derived_key_small;
        [ rewrite Hpb', Hsb'; apply rfc7914_kdf_2
        | rewrite Hpb'; reflexivity | rewrite Hsb'; reflexivity | lia .. ].
Qed.

Lemma scrypt_rfc7914_vectors_witness :
  (exists st1,
     scrypt sample_env (args_scrypt 0 0 16 1 1 64 []) (start [[]; password; NaCl]) =
       (Ok (VBuffer 3), st1) /\
     buffer st1 3 = rfc7914_vector_1) /\
  (exists st2,
     scrypt sample_env (args_scrypt 1 2 1024 8 16 64 []) (start [[]; password; NaCl]) =
       (Ok (VBuffer 3), st2) /\
     buffer st2 3 = rfc7914_vector_2).
Proof.
  apply (scrypt_rfc7914_vectors sample_env (start [[]; password; NaCl])
           0%nat 0%nat 1%nat 2%nat []);
    reflexivity.
Defined.

End Vectors.
